(** * Edit processing pipeline of the image-enhancer backend

    A shallow embedding of
      - [api/utils/storage.py]     (safe_filename, generate_result_path),
      - [api/services/db.py]       (InMemoryDB),
      - [api/utils/audit.py]       (audit_event),
      - [api/routers/edits.py]     (process_edit, create_edit, list_edits),
      - [api/routers/subscriptions.py] (get_subscription_status, the
        subscription webhook's store writes),
    and the properties of the edit life cycle, the usage gate and the
    result-path generator that the specification states about them. *)

From Stdlib Require Import ZArith Lia Ascii String.
From stdpp Require Import base option list gmap.

Local Open Scope Z_scope.

(** ** Python values

    A Python [str] is a sequence of Unicode code points: a list of [N].
    [lit] turns a literal of the source into that representation. *)

Abbreviation pystr := (list N).

Definition lit (s : string) : pystr :=
  N_of_ascii <$> list_ascii_of_string s.

Definition slash : N := 47%N.       (* "/" *)
Definition underscore : N := 95%N.  (* "_" *)
Definition hyphen : N := 45%N.      (* "-" *)

(** [bytes] objects. *)
Abbreviation pybytes := (list Byte.byte).

(** ** api/utils/storage.py *)

Module Storage.

(** The character class of [SAFE_CHARS_RE = re.compile(r"[^A-Za-z0-9._-]")]:
    [in_class c] holds for the characters the negated class does NOT match. *)
Definition in_class (c : N) : bool :=
  ((65 <=? c) && (c <=? 90) ||
   (97 <=? c) && (c <=? 122) ||
   (48 <=? c) && (c <=? 57) ||
   (c =? 46) || (c =? 95) || (c =? 45))%N.

(** [SAFE_CHARS_RE.sub(repl, s)]: every character matched by the negated
    class is replaced by [repl]; the others are kept. *)
Definition SAFE_CHARS_RE_sub (repl : pystr) (s : pystr) : pystr :=
  flat_map (fun c => if in_class c then [c] else repl) s.

(** What the substitution with the one-character replacement ["_"] does
    to a single character. *)
Definition sanitize (c : N) : N := if in_class c then c else underscore.

(** [str.rfind(c)]: the highest index holding [c], or -1. [i] is the index
    of the head of [s]. *)
Fixpoint rfind_from (i : Z) (c : N) (s : pystr) : Z :=
  match s with
  | [] => -1
  | x :: t =>
      let r := rfind_from (i + 1) c t in
      if 0 <=? r then r else if (x =? c)%N then i else -1
  end.

Definition rfind (c : N) (s : pystr) : Z := rfind_from 0 c s.

(** [posixpath.basename]: [i = p.rfind('/') + 1; return p[i:]]. *)
Definition basename (p : pystr) : pystr :=
  let i := rfind slash p + 1 in
  drop (Z.to_nat i) p.

Definition startswith (c : N) (s : pystr) : bool :=
  match s with
  | x :: _ => (x =? c)%N
  | [] => false
  end.

Definition endswith (c : N) (s : pystr) : bool :=
  match last s with
  | Some x => (x =? c)%N
  | None => false
  end.

(** [posixpath.join(a, b)] with one component [b]:
    [if b.startswith(sep): path = b
     elif not path or path.endswith(sep): path += b
     else: path += sep + b]. *)
Definition path_join (a b : pystr) : pystr :=
  if startswith slash b then b
  else if bool_decide (a = []) || endswith slash a then a ++ b
  else a ++ slash :: b.

(** [safe_filename]: basename, substitution, [name[:100]]. *)
Definition safe_filename (original : pystr) : pystr :=
  let name := basename original in
  let name := SAFE_CHARS_RE_sub [underscore] name in
  take 100 name.

(** [generate_result_path]. [RESULTS_DIR] is [settings.RESULTS_DIR] and
    [u] is [str(uuid.uuid4())], the value drawn by this call. *)
Definition generate_result_path (RESULTS_DIR u basename_hint : pystr)
  : pystr * pystr :=
  let safe := safe_filename basename_hint in
  let unique := u ++ underscore :: safe in
  let rel := path_join RESULTS_DIR unique in
  let abs_path := rel in
  (abs_path, rel).

(** [generate_upload_path], the same with [settings.UPLOAD_DIR]. *)
Definition generate_upload_path (UPLOAD_DIR u filename : pystr)
  : pystr * pystr :=
  let safe := safe_filename filename in
  let unique := u ++ underscore :: safe in
  let rel := path_join UPLOAD_DIR unique in
  let abs_path := rel in
  (abs_path, rel).

(** The text of a UUID as [str(uuid.UUID)] prints it: 36 characters,
    lowercase hexadecimal digits in groups of 8-4-4-4-12 separated by
    hyphens. *)
Definition is_hex (c : N) : bool :=
  ((48 <=? c) && (c <=? 57) || (97 <=? c) && (c <=? 102))%N.

Fixpoint uuid_shape (i : nat) (s : pystr) : bool :=
  match s with
  | [] => Nat.eqb i 36
  | c :: t =>
      (if Nat.eqb i 8 || Nat.eqb i 13 || Nat.eqb i 18 || Nat.eqb i 23
       then (c =? hyphen)%N else is_hex c)
      && uuid_shape (S i) t
  end.

Definition is_uuid_str (s : pystr) : bool := uuid_shape 0 s.

End Storage.


(** ** api/services/db.py *)

Module DB.

(** The three values the code ever stores under an edit's ["status"] key. *)
Inductive Status := queued | completed | failed.

#[export] Instance Status_eq_dec : EqDecision Status.
Proof. solve_decision. Defined.

(** The record [create_image] stores. *)
Record Image := {
  img_id : pystr;
  img_user_id : pystr;
  img_filename : pystr;
  img_path : pystr;
  img_mime : pystr;
  img_created_at : pystr;
  img_status : pystr;
}.

(** The record [create_edit] stores. [e_result_path = None] is Python's
    [None]. *)
Record Edit := {
  e_id : pystr;
  e_user_id : pystr;
  e_image_id : pystr;
  e_prompt : pystr;
  e_status : Status;
  e_result_path : option pystr;
  e_created_at : pystr;
  e_updated_at : pystr;
}.

(** The record [set_subscription] stores; [sub_plan = None] is the
    [plan=None] of a cancelled subscription. *)
Record Subscription := {
  sub_user_id : pystr;
  sub_plan : option pystr;
  sub_status : pystr;
}.

(** [InMemoryDB]: one dict per entity, keyed by id (usage: by user id, then
    by metric). The [users] dict is not read or written by the operations
    below and is left out. *)
Record InMemoryDB := {
  images : gmap pystr Image;
  edits : gmap pystr Edit;
  subscriptions : gmap pystr Subscription;
  usage : gmap pystr (gmap pystr Z);
}.

(** [InMemoryDB()] *)
Definition empty : InMemoryDB :=
  {| images := ∅; edits := ∅; subscriptions := ∅; usage := ∅ |}.

Definition set_images (f : gmap pystr Image → gmap pystr Image) (d : InMemoryDB) :=
  {| images := f (images d); edits := edits d;
     subscriptions := subscriptions d; usage := usage d |}.
Definition set_edits (f : gmap pystr Edit → gmap pystr Edit) (d : InMemoryDB) :=
  {| images := images d; edits := f (edits d);
     subscriptions := subscriptions d; usage := usage d |}.
Definition set_subscriptions
    (f : gmap pystr Subscription → gmap pystr Subscription) (d : InMemoryDB) :=
  {| images := images d; edits := edits d;
     subscriptions := f (subscriptions d); usage := usage d |}.
Definition set_usage
    (f : gmap pystr (gmap pystr Z) → gmap pystr (gmap pystr Z)) (d : InMemoryDB) :=
  {| images := images d; edits := edits d;
     subscriptions := subscriptions d; usage := f (usage d) |}.

(** [create_image]; [u] is the [uuid4()] drawn and [now] the clock reading. *)
Definition create_image (u now : pystr) (user_id filename path mime : pystr)
    (d : InMemoryDB) : Image * InMemoryDB :=
  let rec := {| img_id := u; img_user_id := user_id; img_filename := filename;
                img_path := path; img_mime := mime; img_created_at := now;
                img_status := lit "uploaded" |} in
  (rec, set_images (insert u rec) d).

(** [get_image]: [img = self.images.get(image_id)];
    [if img and img["user_id"] == user_id: return img]. A stored record is
    a non-empty dict, hence truthy. *)
Definition get_image (user_id image_id : pystr) (d : InMemoryDB) : option Image :=
  match images d !! image_id with
  | Some img => if decide (img_user_id img = user_id) then Some img else None
  | None => None
  end.

(** [list_images] (enumeration order of the dict is not modelled). *)
Definition list_images (user_id : pystr) (d : InMemoryDB) : list Image :=
  filter (fun i => img_user_id i = user_id) (snd <$> map_to_list (images d)).

(** [create_edit]; [u] is the [uuid4()] drawn, [now1], [now2] the two clock
    readings. [self.edits[edit_id] = rec] overwrites whatever is there. *)
Definition create_edit (u now1 now2 : pystr) (user_id image_id prompt : pystr)
    (d : InMemoryDB) : Edit * InMemoryDB :=
  let rec := {| e_id := u; e_user_id := user_id; e_image_id := image_id;
                e_prompt := prompt; e_status := queued; e_result_path := None;
                e_created_at := now1; e_updated_at := now2 |} in
  (rec, set_edits (insert u rec) d).

(** [get_edit] *)
Definition get_edit (user_id edit_id : pystr) (d : InMemoryDB) : option Edit :=
  match edits d !! edit_id with
  | Some ed => if decide (e_user_id ed = user_id) then Some ed else None
  | None => None
  end.

(** The keyword arguments [**fields] of [update_edit]: the callers pass
    [status] alone or [status] and [result_path]; a key that is not passed
    is [None] here. *)
Record EditFields := {
  f_status : option Status;
  f_result_path : option pystr;
}.

(** [ed.update(fields)] followed by the refresh of ["updated_at"]. *)
Definition apply_fields (fields : EditFields) (now : pystr) (ed : Edit) : Edit :=
  {| e_id := e_id ed; e_user_id := e_user_id ed; e_image_id := e_image_id ed;
     e_prompt := e_prompt ed;
     e_status := default (e_status ed) (f_status fields);
     e_result_path :=
       match f_result_path fields with
       | Some p => Some p
       | None => e_result_path ed
       end;
     e_created_at := e_created_at ed;
     e_updated_at := now |}.

(** [update_edit]: [None] and no write when the id is unknown; otherwise
    the stored record is updated in place. *)
Definition update_edit (now : pystr) (edit_id : pystr) (fields : EditFields)
    (d : InMemoryDB) : option Edit * InMemoryDB :=
  match edits d !! edit_id with
  | None => (None, d)
  | Some ed =>
      let ed' := apply_fields fields now ed in
      (Some ed', set_edits (insert edit_id ed') d)
  end.

(** [list_edits_for_image] (enumeration order of the dict is not modelled). *)
Definition list_edits_for_image (user_id image_id : pystr) (d : InMemoryDB)
    : list Edit :=
  filter (fun e => e_user_id e = user_id ∧ e_image_id e = image_id)
         (snd <$> map_to_list (edits d)).

(** [set_subscription] *)
Definition set_subscription (user_id : pystr) (plan : option pystr)
    (status : pystr) (d : InMemoryDB) : Subscription * InMemoryDB :=
  let rec := {| sub_user_id := user_id; sub_plan := plan; sub_status := status |} in
  (rec, set_subscriptions (insert user_id rec) d).

(** [get_subscription] *)
Definition get_subscription (user_id : pystr) (d : InMemoryDB)
    : option Subscription :=
  subscriptions d !! user_id.

(** [get_usage]: [self.usage.get(user_id, {})]. *)
Definition get_usage (user_id : pystr) (d : InMemoryDB) : gmap pystr Z :=
  default ∅ (usage d !! user_id).

(** [increment_usage]: creates the user's dict when missing, then
    [self.usage[user_id][metric] = self.usage[user_id].get(metric, 0) + amount]
    and returns the stored value. Python integers are unbounded. *)
Definition increment_usage (user_id metric : pystr) (amount : Z)
    (d : InMemoryDB) : Z * InMemoryDB :=
  let d1 :=
    match usage d !! user_id with
    | None => set_usage (insert user_id ∅) d
    | Some _ => d
    end in
  let per_user := default ∅ (usage d1 !! user_id) in
  let total := default 0 (per_user !! metric) + amount in
  let d2 := set_usage (insert user_id (<[metric := total]> per_user)) d1 in
  (default 0 (default ∅ (usage d2 !! user_id) !! metric), d2).

End DB.

(** ** The process state and its effects *)

Import DB.

(** [settings]: the fields the modelled code reads. *)
Record Settings := {
  UPLOAD_DIR : pystr;
  RESULTS_DIR : pystr;
  GOOGLE_NANO_BANANA_API_URL : pystr;
  STRIPE_PRICE_BASIC : pystr;
}.

(** The defaults of [Settings]. *)
Definition default_settings : Settings :=
  {| UPLOAD_DIR := lit "storage/uploads";
     RESULTS_DIR := lit "storage/results";
     GOOGLE_NANO_BANANA_API_URL := lit "https://api.nano-banana.example.com/v1";
     STRIPE_PRICE_BASIC := lit "price_basic" |}.

(** What the process cannot compute by itself: the settings it was started
    with, the successive values of [str(uuid.uuid4())] and the successive
    readings of [datetime.utcnow().isoformat() + "Z"]. *)
Record Env := {
  settings : Settings;
  uuid4 : nat → pystr;
  utcnow : nat → pystr;
}.

(** The event types and payload dicts passed to [send_notification]; a key
    the dict does not carry is [None]. *)
Inductive EventType := edit_status | usage_alert | subscription_update.

Inductive Payload :=
| EditStatusPayload (edit_id : pystr) (status : Status)
    (result_path : option pystr) (error : option pystr)
| UsageAlertPayload (message : pystr) (remaining : Z)
| SubscriptionPayload (status : pystr) (plan : option pystr).

#[export] Instance EventType_eq_dec : EqDecision EventType.
Proof. solve_decision. Defined.

(** Observable effects, in program order. *)
Inductive Effect :=
| FileOpened (path : pystr)                       (* open(path, "rb") *)
| HttpPost (url : pystr) (prompt : pystr)         (* client.post *)
| HttpGet (url : pystr)                           (* client.get *)
| FileWritten (path : pystr) (content : pybytes)  (* open(path, "wb"); write *)
| EditStored (edit_id : pystr) (status : Status) (result_path : option pystr)
                                                  (* a write to db.edits *)
| Sent (user_id : pystr) (event_type : EventType) (payload : Payload)
                                                  (* send_notification *)
| Audited (ts action user_id : pystr) (details : list (pystr * pystr)).

(** A scheduled [background_tasks.add_task(process_edit, ...)]. *)
Record Task := {
  task_user_id : pystr;
  task_edit_id : pystr;
  task_image_path : pystr;
  task_prompt : pystr;
}.

(** The state of the process: the singleton store [db], the background tasks
    not run yet, how many UUIDs and clock readings were drawn, and the trace
    of effects, each with the store as it was when the effect happened. *)
Record World := {
  db : InMemoryDB;
  tasks : list Task;
  draws : nat;
  ticks : nat;
  log : list (Effect * InMemoryDB);
}.

Definition init : World :=
  {| db := DB.empty; tasks := []; draws := 0%nat;
     ticks := 0%nat; log := [] |}.

Definition set_db (f : InMemoryDB → InMemoryDB) (w : World) : World :=
  {| db := f (db w); tasks := tasks w;
     draws := draws w; ticks := ticks w; log := log w |}.
Definition set_tasks (f : list Task → list Task) (w : World) : World :=
  {| db := db w; tasks := f (tasks w);
     draws := draws w; ticks := ticks w; log := log w |}.
Definition set_draws (f : nat → nat) (w : World) : World :=
  {| db := db w; tasks := tasks w;
     draws := f (draws w); ticks := ticks w; log := log w |}.
Definition set_ticks (f : nat → nat) (w : World) : World :=
  {| db := db w; tasks := tasks w;
     draws := draws w; ticks := f (ticks w); log := log w |}.
Definition set_log
    (f : list (Effect * InMemoryDB) → list (Effect * InMemoryDB)) (w : World) :=
  {| db := db w; tasks := tasks w;
     draws := draws w; ticks := ticks w; log := f (log w) |}.

(** *** Computations: state passing with exceptions

    A raised exception keeps the state reached so far, as in Python. *)

Inductive Result (E A : Type) :=
| Ok (a : A)
| Raised (e : E).
Arguments Ok {E A} a.
Arguments Raised {E A} e.

Definition M (E A : Type) : Type := World → Result E A * World.

#[export] Instance M_ret {E} : MRet (M E) := fun A a w => (Ok a, w).

#[export] Instance M_bind {E} : MBind (M E) := fun A B k m w =>
  match m w with
  | (Ok a, w') => k a w'
  | (Raised e, w') => (Raised e, w')
  end.

Definition raise {E A} (e : E) : M E A := fun w => (Raised e, w).

(** [try: body except Exception as e: handler e] *)
Definition try_except {E E' A} (body : M E A) (handler : E → M E' A) : M E' A :=
  fun w =>
    match body w with
    | (Ok a, w') => (Ok a, w')
    | (Raised e, w') => handler e w'
    end.

Definition gets {E A} (f : World → A) : M E A := fun w => (Ok (f w), w).
Definition modify {E} (f : World → World) : M E unit := fun w => (Ok tt, f w).

(** Appends an effect to the trace, with the store of that instant. *)
Definition emit {E} (ef : Effect) : M E unit :=
  modify (fun w => set_log (fun l => l ++ [(ef, db w)]) w).

(** An outside call: logged when attempted, then it returns or raises. *)
Definition outcome {E A} (r : Result E A) : M E A := fun w => (r, w).

Definition outside {E A} (ef : Effect) (r : Result E A) : M E A :=
  emit ef;; outcome r.

Definition run_db {E A} (f : InMemoryDB → A * InMemoryDB) : M E A :=
  fun w => let '(a, d) := f (db w) in (Ok a, set_db (fun _ => d) w).

(** [bool(x)] of an optional stored record: a record is a non-empty dict. *)
Definition truthy {A} (o : option A) : bool :=
  match o with
  | Some _ => true
  | None => false
  end.

Section Primitives.
Context (env : Env).
Context {E : Type}.

(** [str(uuid.uuid4())] *)
Definition uuid4_str : M E pystr :=
  fun w => (Ok (uuid4 env (draws w)), set_draws S w).

(** [datetime.utcnow().isoformat() + "Z"] *)
Definition utcnow_iso : M E pystr :=
  fun w => (Ok (utcnow env (ticks w)), set_ticks S w).

(** The calls on the singleton [db]. *)
Definition db_get_image (user_id image_id : pystr) : M E (option Image) :=
  gets (fun w => get_image user_id image_id (db w)).

Definition db_create_image (user_id filename path mime : pystr) : M E Image :=
  u ← uuid4_str;
  now ← utcnow_iso;
  run_db (DB.create_image u now user_id filename path mime).

Definition db_create_edit (user_id image_id prompt : pystr) : M E Edit :=
  u ← uuid4_str;
  now1 ← utcnow_iso;
  now2 ← utcnow_iso;
  rec ← run_db (DB.create_edit u now1 now2 user_id image_id prompt);
  emit (EditStored (e_id rec) (e_status rec) (e_result_path rec));;
  mret rec.

(** [db.update_edit]: the clock is read, and the store written, only when
    the record exists. *)
Definition db_update_edit (edit_id : pystr) (fields : EditFields)
    : M E (option Edit) :=
  fun w =>
    match DB.update_edit (utcnow env (ticks w)) edit_id fields (db w) with
    | (None, _) => (Ok None, w)
    | (Some ed, d) =>
        (emit (EditStored edit_id (e_status ed) (e_result_path ed));;
         mret (Some ed))
          (set_ticks S (set_db (fun _ => d) w))
    end.

Definition db_list_edits_for_image (user_id image_id : pystr) : M E (list Edit) :=
  gets (fun w => list_edits_for_image user_id image_id (db w)).

Definition db_set_subscription (user_id : pystr) (plan : option pystr)
    (status : pystr) : M E Subscription :=
  run_db (DB.set_subscription user_id plan status).

Definition db_get_subscription (user_id : pystr) : M E (option Subscription) :=
  gets (fun w => get_subscription user_id (db w)).

Definition db_increment_usage (user_id metric : pystr) (amount : Z) : M E Z :=
  run_db (DB.increment_usage user_id metric amount).

Definition db_get_usage (user_id : pystr) : M E (gmap pystr Z) :=
  gets (fun w => get_usage user_id (db w)).

(** api/utils/audit.py, [audit_event]: a timestamped record handed to the
    logger; nothing is read back and nothing is raised. *)
Definition audit_event (action user_id : pystr) (details : list (pystr * pystr))
    : M E unit :=
  ts ← utcnow_iso;
  emit (Audited ts action user_id details).

(** Modelled from the spec: [send_notification] of routers/websocket.py,
    which is not among the sources. Section 4.1: the event is handed to
    the channels registered for the user; with no channel the call
    succeeds and the event is dropped; a failing channel is isolated, so
    the call never fails; the store is not touched. The trace records the
    call. *)
Definition send_notification (user_id : pystr) (event_type : EventType)
    (payload : Payload) : M E unit :=
  emit (Sent user_id event_type payload).

End Primitives.

(** ** api/routers/edits.py *)

Module Edits.

(** [str(e)] of an exception raised inside the executor. *)
Record PyException := { str_e : pystr }.

(** What the outside world answers during one run of [process_edit]:
    - [open_rb path]: [open(image_path, "rb")];
    - [post_enhance image prompt]: [client.post(.../enhance)],
      [raise_for_status()], [response.json()] and [result["image_url"]],
      which touch no state of the process in between: the URL, or the
      first exception;
    - [get_content url]: [client.get(result_url)], [raise_for_status()],
      [img_response.content];
    - [write_file path content]: [open(abs_path, "wb")] and [f.write]. *)
Record Externals := {
  open_rb : pystr → Result PyException pybytes;
  post_enhance : pybytes → pystr → Result PyException pystr;
  get_content : pystr → Result PyException pybytes;
  write_file : pystr → pybytes → Result PyException unit;
}.

(** [HTTPException(status_code, detail)] *)
Record HTTPException := { status_code : Z; detail : pystr }.

Definition HTTP_404_NOT_FOUND : Z := 404.

Record EditRequest := { prompt : pystr }.

Record EditResponse := {
  id : pystr;
  image_id : pystr;
  r_prompt : pystr;
  status : Status;
  result_path : option pystr;
  created_at : pystr;
  updated_at : pystr;
}.

(** The response built from the dict [edit_record] by keyword expansion:
    the fields of the model are copied, the extra key ["user_id"] is
    ignored. *)
Definition EditResponse_of (ed : Edit) : EditResponse :=
  {| id := e_id ed; image_id := e_image_id ed; r_prompt := e_prompt ed;
     status := e_status ed; result_path := e_result_path ed;
     created_at := e_created_at ed; updated_at := e_updated_at ed |}.

Section WithEnv.
Context (env : Env).

Definition usage_alert_message : pystr :=
  lit "You have only 2 trial edits remaining. Subscribe to continue using the service.".

(** The [try] block of [process_edit]. *)
Definition process_edit_try (ext : Externals)
    (user_id edit_id image_path prompt : pystr) : M PyException unit :=
  (* Call the enhancement API *)
  image ← outside (FileOpened image_path) (open_rb ext image_path);
  result_url ←
    outside (HttpPost (GOOGLE_NANO_BANANA_API_URL (settings env)
                         ++ lit "/enhance") prompt)
            (post_enhance ext image prompt);
  (* Download result image *)
  content ← outside (HttpGet result_url) (get_content ext result_url);
  (* Save result image *)
  u ← uuid4_str env;
  let '(abs_path, rel_path) :=
    Storage.generate_result_path (RESULTS_DIR (settings env)) u
                                 (lit "enhanced.jpg") in
  outside (FileWritten abs_path content) (write_file ext abs_path content);;
  (* Update edit record *)
  db_update_edit env edit_id
    {| f_status := Some completed; f_result_path := Some rel_path |};;
  (* Send notification *)
  send_notification user_id edit_status
    (EditStatusPayload edit_id completed (Some rel_path) None);;
  (* Track usage and check trial status *)
  usage ← db_increment_usage user_id (lit "edits_completed") 1;
  (* Check if user is on trial and running low on credits *)
  sub ← db_get_subscription user_id;
  (if negb (truthy sub) && (8 <=? usage)
   then send_notification user_id usage_alert
          (UsageAlertPayload usage_alert_message (10 - usage))
   else mret tt);;
  audit_event env (lit "edit_completed") user_id
    [(lit "edit_id", edit_id); (lit "image_path", rel_path)].

(** The [except Exception as e] block of [process_edit]. *)
Definition process_edit_except (user_id edit_id : pystr) (e : PyException)
    : M PyException unit :=
  db_update_edit env edit_id
    {| f_status := Some failed; f_result_path := None |};;
  send_notification user_id edit_status
    (EditStatusPayload edit_id failed None (Some (str_e e)));;
  audit_event env (lit "edit_failed") user_id
    [(lit "edit_id", edit_id); (lit "error", str_e e)].

(** [process_edit], the background task. *)
Definition process_edit (ext : Externals)
    (user_id edit_id image_path prompt : pystr) : M PyException unit :=
  try_except (process_edit_try ext user_id edit_id image_path prompt)
             (process_edit_except user_id edit_id).

(** [background_tasks.add_task(process_edit, ...)] *)
Definition add_task {E} (t : Task) : M E unit :=
  modify (set_tasks (fun ts => ts ++ [t])).

(** [create_edit]: POST /edits/{image_id}. [user_id] is [user["id"]] of
    the authenticated user. *)
Definition create_edit (image_id : pystr) (edit : EditRequest)
    (user_id : pystr) : M HTTPException EditResponse :=
  (* Verify image exists and user owns it *)
  image ← db_get_image user_id image_id;
  match image with
  | None =>
      raise {| status_code := HTTP_404_NOT_FOUND;
               detail := lit "Image not found" |}
  | Some image =>
      (* Create edit record *)
      edit_record ← db_create_edit env user_id image_id (prompt edit);
      (* Queue background processing *)
      add_task {| task_user_id := user_id;
                  task_edit_id := e_id edit_record;
                  task_image_path := img_path image;
                  task_prompt := prompt edit |};;
      audit_event env (lit "edit_requested") user_id
        [(lit "edit_id", e_id edit_record); (lit "image_id", image_id);
         (lit "prompt", prompt edit)];;
      mret (EditResponse_of edit_record)
  end.

(** [list_edits]: GET /edits/{image_id}/list. *)
Definition list_edits (image_id : pystr) (user_id : pystr)
    : M HTTPException (list EditResponse) :=
  image ← db_get_image user_id image_id;
  if negb (truthy image) then
    raise {| status_code := HTTP_404_NOT_FOUND;
             detail := lit "Image not found" |}
  else
    edits ← db_list_edits_for_image user_id image_id;
    mret (EditResponse_of <$> edits).

End WithEnv.

End Edits.

(** ** api/routers/subscriptions.py *)

Module Subscriptions.

Record SubscriptionStatus := {
  plan : option pystr;
  status : pystr;
  trial_remaining : option Z;
}.

Section WithEnv.
Context (env : Env).
Context {E : Type}.

(** [get_subscription_status]: GET /subscriptions/status. *)
Definition get_subscription_status (user_id : pystr) : M E SubscriptionStatus :=
  sub ← db_get_subscription user_id;
  usage ← db_get_usage user_id;
  let edits_used := default 0 (usage !! lit "edits_completed") in
  match sub with
  | None =>
      mret {| plan := None; status := lit "trial";
              trial_remaining := Some (Z.max 0 (10 - edits_used)) |}
  | Some sub =>
      mret {| plan := sub_plan sub; status := sub_status sub;
              trial_remaining := None |}
  end.

(** [stripe_webhook], the branch of a verified
    [customer.subscription.created] event whose metadata carries
    [user_id]; [price_id] is [subscription.items.data[0].price.id]. *)
Definition on_subscription_created (user_id subscription_id price_id : pystr)
    : M E unit :=
  let plan := if decide (price_id = STRIPE_PRICE_BASIC (settings env))
              then lit "basic" else lit "pro" in
  db_set_subscription user_id (Some plan) (lit "active");;
  send_notification user_id subscription_update
    (SubscriptionPayload (lit "active") (Some plan));;
  audit_event env (lit "subscription_created") user_id
    [(lit "subscription_id", subscription_id); (lit "plan", price_id)].

(** [stripe_webhook], the branch of a verified
    [customer.subscription.deleted] event. *)
Definition on_subscription_deleted (user_id subscription_id : pystr)
    : M E unit :=
  db_set_subscription user_id None (lit "cancelled");;
  send_notification user_id subscription_update
    (SubscriptionPayload (lit "cancelled") None);;
  audit_event env (lit "subscription_cancelled") user_id
    [(lit "subscription_id", subscription_id)].

End WithEnv.

End Subscriptions.

(** ** The running service

    The store is touched by the request handlers, by the background tasks
    and by the collaborators around them. One [Op] is one of these units of
    work; a background task runs after the request that scheduled it has
    returned, in any order with respect to the other pending ones. *)

Inductive Op :=
| Submit (user_id image_id prompt : pystr)          (* Edits.create_edit *)
| ListEdits (user_id image_id : pystr)              (* Edits.list_edits *)
| RunTask (k : nat) (ext : Edits.Externals)         (* the k-th pending task *)
| Upload (user_id filename path mime : pystr)       (* db.create_image *)
| SubscriptionCreated (user_id subscription_id price_id : pystr)
| SubscriptionDeleted (user_id subscription_id : pystr).

Section Service.
Context (env : Env).

Definition exec (op : Op) (w : World) : World :=
  match op with
  | Submit user_id image_id prompt =>
      snd (Edits.create_edit env image_id {| Edits.prompt := prompt |} user_id w)
  | ListEdits user_id image_id =>
      snd (Edits.list_edits image_id user_id w)
  | RunTask k ext =>
      match tasks w !! k with
      | None => w
      | Some t =>
          snd (Edits.process_edit env ext (task_user_id t) (task_edit_id t)
                 (task_image_path t) (task_prompt t)
                 (set_tasks (delete k) w))
      end
  | Upload user_id filename path mime =>
      snd (db_create_image (E := False) env user_id filename path mime w)
  | SubscriptionCreated user_id subscription_id price_id =>
      snd (Subscriptions.on_subscription_created (E := False) env
             user_id subscription_id price_id w)
  | SubscriptionDeleted user_id subscription_id =>
      snd (Subscriptions.on_subscription_deleted (E := False) env
             user_id subscription_id w)
  end.

(** The state after a sequence of operations. *)
Definition run (ops : list Op) (w : World) : World :=
  foldl (fun w op => exec op w) w ops.

(** The states the service can be in: those reached from the start of the
    process. *)
Definition reachable (w : World) : Prop := ∃ ops, w = run ops init.

(** The UUIDs drawn so far are pairwise different. *)
Definition distinct_draws (w : World) : Prop :=
  NoDup (uuid4 env <$> seq 0 (draws w)).

End Service.

(** ** Vocabulary of the properties *)

(** Kinds of trace entries. *)
Definition is_outside (ef : Effect) : bool :=
  match ef with
  | FileOpened _ | HttpPost _ _ | HttpGet _ | FileWritten _ _ => true
  | _ => false
  end.

Definition is_post (ef : Effect) : bool :=
  match ef with
  | HttpPost _ _ => true
  | _ => false
  end.

Definition is_sent (ef : Effect) : bool :=
  match ef with
  | Sent _ _ _ => true
  | _ => false
  end.

Definition is_edit_status (ef : Effect) : bool :=
  match ef with
  | Sent _ edit_status _ => true
  | _ => false
  end.

Definition is_usage_alert (ef : Effect) : bool :=
  match ef with
  | Sent _ usage_alert _ => true
  | _ => false
  end.

Definition is_audited (ef : Effect) : bool :=
  match ef with
  | Audited _ _ _ _ => true
  | _ => false
  end.

Definition is_stored (ef : Effect) : bool :=
  match ef with
  | EditStored _ _ _ => true
  | _ => false
  end.

(** The effects that happened between state [w] and a later state [w']. *)
Definition effects_since (w w' : World) : list Effect :=
  (drop (length (log w)) (log w')).*1.

Section Vocabulary.
Context (env : Env) (ext : Edits.Externals).
Context (user_id edit_id image_path prompt : pystr).

(** The path [generate_result_path("enhanced.jpg")] returns in state [w]. *)
Definition rel_path_at (w : World) : pystr :=
  (Storage.generate_result_path (RESULTS_DIR (settings env))
     (uuid4 env (draws w)) (lit "enhanced.jpg")).2.

(** The first exception among the outside calls of steps 1 to 3 of the
    executor in state [w], if one of them fails. *)
Definition external_failure (w : World) : option Edits.PyException :=
  match Edits.open_rb ext image_path with
  | Raised e => Some e
  | Ok image =>
      match Edits.post_enhance ext image prompt with
      | Raised e => Some e
      | Ok url =>
          match Edits.get_content ext url with
          | Raised e => Some e
          | Ok content =>
              match Edits.write_file ext (rel_path_at w) content with
              | Raised e => Some e
              | Ok _ => None
              end
          end
      end
  end.

(** The trace entry of a store write that takes the edit from store [d]
    to store [d'], when the edit exists. *)
Definition stored_entry (d d' : InMemoryDB) : list (Effect * InMemoryDB) :=
  match edits d' !! edit_id with
  | Some ed =>
      if truthy (edits d !! edit_id)
      then [(EditStored edit_id (e_status ed) (e_result_path ed), d')]
      else []
  | None => []
  end.

End Vocabulary.

Section Invariant.
Context (env : Env).

(** The invariant of the service: a pending task is for an edit that is
    still queued, and no two pending tasks are for the same edit; the id
    of every edit is one of the UUIDs drawn so far; an edit holds a result
    path exactly when it is completed. *)
Record Inv (w : World) : Prop := {
  inv_tasks_queued :
    ∀ t, t ∈ tasks w →
      ∃ e, edits (db w) !! task_edit_id t = Some e ∧ e_status e = queued;
  inv_tasks_nodup : NoDup (task_edit_id <$> tasks w);
  inv_ids_drawn :
    ∀ eid e, edits (db w) !! eid = Some e →
      ∃ k, (k < draws w)%nat ∧ eid = uuid4 env k;
  inv_result_path :
    ∀ eid e, edits (db w) !! eid = Some e →
      (is_Some (e_result_path e) ↔ e_status e = completed);
}.

End Invariant.

(** Whether the store holds a subscription of the user whose status is
    ["active"]. *)
Definition has_active_subscription (user_id : pystr) (d : InMemoryDB) : bool :=
  match get_subscription user_id d with
  | Some s => bool_decide (sub_status s = lit "active")
  | None => false
  end.

(** ** A concrete service, for the examples *)

Module Example.

Definition hex_digit (n : nat) : N :=
  if (n <? 10)%nat then N.of_nat (48 + n) else N.of_nat (87 + n).

(** UUID texts that differ in their last two digits. *)
Definition uuid (n : nat) : pystr :=
  lit "123e4567-e89b-42d3-a456-4266141740"
    ++ [hex_digit (n / 16); hex_digit (n mod 16)].

Definition env : Env :=
  {| settings := default_settings;
     uuid4 := uuid;
     utcnow := fun _ => lit "2024-01-01T00:00:00Z" |}.

Definition alice : pystr := lit "alice".
Definition bob : pystr := lit "bob".

(** An outside world in which every call succeeds, and one in which the
    enhancement service answers with an error. *)
Definition all_ok : Edits.Externals :=
  {| Edits.open_rb := fun _ => Ok [];
     Edits.post_enhance := fun _ _ => Ok (lit "https://cdn.example.com/r.jpg");
     Edits.get_content := fun _ => Ok [];
     Edits.write_file := fun _ _ => Ok tt |}.

Definition server_error : Edits.PyException :=
  {| Edits.str_e := lit "Server error '500 Internal Server Error'" |}.

Definition post_fails : Edits.Externals :=
  {| Edits.open_rb := fun _ => Ok [];
     Edits.post_enhance := fun _ _ => Raised server_error;
     Edits.get_content := fun _ => Ok [];
     Edits.write_file := fun _ _ => Ok tt |}.

(** Alice uploads an image; its id is the first UUID. *)
Definition upload : Op :=
  Upload alice (lit "house.jpg") (lit "storage/uploads/house.jpg")
         (lit "image/jpeg").
Definition house : pystr := uuid 0.
Definition uploaded : World := run env [upload] init.

Definition brighter : Edits.EditRequest :=
  {| Edits.prompt := lit "brighter sky" |}.
Definition submit : Op := Submit alice house (lit "brighter sky").

(** One edit requested and not processed yet; its id is the second UUID. *)
Definition submitted : World := run env [submit] uploaded.

(** [n] edits requested and completed one after the other. *)
Definition completions (n : nat) : list Op :=
  concat (replicate n [submit; RunTask 0 all_ok]).

(** Alice subscribes and cancels. *)
Definition subscribe_and_cancel : list Op :=
  [SubscriptionCreated alice (lit "sub_1") (lit "price_basic");
   SubscriptionDeleted alice (lit "sub_1")].

End Example.

(** ** api/main.py: the origins handed to the CORS middleware *)

Module Main.

Definition comma : N := 44%N.  (* "," *)
Definition star : N := 42%N.   (* "*" *)

(** [c.isspace()] for one character: the code points CPython counts as
    whitespace, which are those [str.strip()] removes. *)
Definition isspace (c : N) : bool :=
  ((9 <=? c) && (c <=? 13) || (28 <=? c) && (c <=? 32) ||
   (c =? 133) || (c =? 160) || (c =? 5760) ||
   (8192 <=? c) && (c <=? 8202) ||
   (c =? 8232) || (c =? 8233) || (c =? 8239) || (c =? 8287) ||
   (c =? 12288))%N.

(** [str.lstrip()], [str.rstrip()] and [str.strip()]. *)
Fixpoint lstrip (s : pystr) : pystr :=
  match s with
  | c :: t => if isspace c then lstrip t else s
  | [] => []
  end.

Definition rstrip (s : pystr) : pystr := reverse (lstrip (reverse s)).

Definition strip (s : pystr) : pystr := rstrip (lstrip s).

(** [s.split(sep)] with a one-character separator: the pieces between the
    separators, empty pieces included; at least one piece. *)
Fixpoint split (sep : N) (s : pystr) : list pystr :=
  match s with
  | [] => [[]]
  | c :: t =>
      if (c =? sep)%N then [] :: split sep t
      else match split sep t with
           | piece :: rest => (c :: piece) :: rest
           | [] => [[c]]
           end
  end.

(** The [allow_origins] argument of [app.add_middleware(CORSMiddleware, ...)]:
    [[origin.strip() for origin in settings.CORS_ALLOW_ORIGINS.split(",")
      if origin.strip()] or ["*"]]. A non-empty string is truthy, an empty
    list is falsy. *)
Definition allow_origins (CORS_ALLOW_ORIGINS : pystr) : list pystr :=
  let origins :=
    strip <$> filter (fun origin => strip origin ≠ [])
                     (split comma CORS_ALLOW_ORIGINS) in
  match origins with
  | [] => [[star]]
  | _ :: _ => origins
  end.

(** [",".join(l)] *)
Fixpoint join (sep : N) (l : list pystr) : pystr :=
  match l with
  | [] => []
  | [x] => x
  | x :: rest => x ++ sep :: join sep rest
  end.

(** An origin in canonical form: not empty, without a comma, without
    whitespace at either end. *)
Definition well_formed (o : pystr) : Prop :=
  o ≠ [] ∧ (comma ∉ o) ∧ strip o = o.

End Main.

(** ** api/routers/subscriptions.py: checkout and webhook *)

Module Billing.

Definition HTTP_400_BAD_REQUEST : Z := 400.

Record CheckoutSession := { session_id : pystr }.

(** [str(e)] of a [stripe.error.StripeError]. *)
Record StripeError := { stripe_str : pystr }.

(** What the webhook reads of [event.data.object]: the subscription's id,
    [subscription.metadata.get("user_id")] and
    [subscription.items.data[0].price.id]. *)
Record SubscriptionObject := {
  subscription_id : pystr;
  metadata_user_id : option pystr;
  price_id : pystr;
}.

(** What [stripe.Webhook.construct_event(payload, sig_header, secret)]
    answers: a [ValueError], a [SignatureVerificationError], or the verified
    event with its type and object. *)
Inductive ConstructEvent :=
| InvalidPayload
| InvalidSignature
| Verified (event_type : pystr) (object : SubscriptionObject).

(** The body [{"status": "success"}]. *)
Record WebhookResponse := { response_status : pystr }.

Section WithEnv.
Context (env : Env).
(** [settings.STRIPE_PRICE_PRO]. *)
Context (STRIPE_PRICE_PRO : pystr).

(** [create_checkout]: POST /subscriptions/checkout/{plan}.
    [session_create price_id email user_id] is the answer of
    [stripe.checkout.Session.create] for that price, customer e-mail and
    metadata: the id of the session, or a [StripeError]. *)
Definition create_checkout
    (session_create : pystr → pystr → pystr → Result StripeError pystr)
    (plan : pystr) (user_id email : pystr)
    : M Edits.HTTPException CheckoutSession :=
  (* Validate plan *)
  if negb (bool_decide (plan ∈ [lit "basic"; lit "pro"])) then
    raise {| Edits.status_code := HTTP_400_BAD_REQUEST;
             Edits.detail := lit "Invalid plan" |}
  else
    let price_id :=
      if decide (plan = lit "basic") then STRIPE_PRICE_BASIC (settings env)
      else STRIPE_PRICE_PRO in
    match session_create price_id email user_id with
    | Ok sid =>
        audit_event env (lit "checkout_started") user_id
          [(lit "plan", plan); (lit "session_id", sid)];;
        mret {| session_id := sid |}
    | Raised e =>
        raise {| Edits.status_code := HTTP_400_BAD_REQUEST;
                 Edits.detail := stripe_str e |}
    end.

(** [if user_id:] on the optional text of the metadata: [None] and the
    empty text are falsy. *)
Definition acting_user (subscription : SubscriptionObject) : option pystr :=
  match metadata_user_id subscription with
  | Some user_id => if bool_decide (user_id = []) then None else Some user_id
  | None => None
  end.

(** [stripe_webhook]: POST /subscriptions/webhook. *)
Definition stripe_webhook (constructed : ConstructEvent)
    : M Edits.HTTPException WebhookResponse :=
  match constructed with
  | InvalidPayload =>
      raise {| Edits.status_code := 400;
               Edits.detail := lit "Invalid payload" |}
  | InvalidSignature =>
      raise {| Edits.status_code := 400;
               Edits.detail := lit "Invalid signature" |}
  | Verified event_type subscription =>
      (* Handle subscription events *)
      (if decide (event_type = lit "customer.subscription.created") then
         match acting_user subscription with
         | Some user_id =>
             Subscriptions.on_subscription_created env user_id
               (subscription_id subscription) (price_id subscription)
         | None => mret tt
         end
       else if decide (event_type = lit "customer.subscription.deleted") then
         match acting_user subscription with
         | Some user_id =>
             Subscriptions.on_subscription_deleted env user_id
               (subscription_id subscription)
         | None => mret tt
         end
       else mret tt);;
      mret {| response_status := lit "success" |}
  end.

End WithEnv.

End Billing.

(** ** Vocabulary of the further properties *)

(** The number of edits of a user that are completed. *)
Definition completed_count (user_id : pystr) (d : InMemoryDB) : nat :=
  size (filter (fun kv : pystr * Edit =>
                  e_user_id kv.2 = user_id ∧ e_status kv.2 = completed)
               (edits d)).

Section Consistency.
Context (env : Env).

(** What the store and the pending tasks keep consistent: records are
    stored under their own id; the image of every edit exists and belongs
    to the owner of the edit; image ids are UUIDs drawn so far; a pending
    task carries the owner, the prompt and the image path of its edit; the
    completion counter of a user is the number of that user's completed
    edits, and no other metric is counted. *)
Record Consistent (w : World) : Prop := {
  con_edit_id :
    ∀ eid e, edits (db w) !! eid = Some e → e_id e = eid;
  con_edit_image :
    ∀ eid e, edits (db w) !! eid = Some e →
      ∃ img, get_image (e_user_id e) (e_image_id e) (db w) = Some img;
  con_image_id :
    ∀ iid img, images (db w) !! iid = Some img →
      img_id img = iid ∧ ∃ k, (k < draws w)%nat ∧ iid = uuid4 env k;
  con_task :
    ∀ t, t ∈ tasks w →
      ∃ e img,
        edits (db w) !! task_edit_id t = Some e ∧
        e_user_id e = task_user_id t ∧ e_prompt e = task_prompt t ∧
        get_image (e_user_id e) (e_image_id e) (db w) = Some img ∧
        img_path img = task_image_path t;
  con_usage :
    ∀ u, default 0 (get_usage u (db w) !! lit "edits_completed")
         = Z.of_nat (completed_count u (db w));
  con_metric :
    ∀ u m, m ≠ lit "edits_completed" → get_usage u (db w) !! m = None;
}.

(** The UUIDs drawn so far have the form of a UUID text. *)
Definition shaped_draws (w : World) : Prop :=
  Forall (fun u => Storage.is_uuid_str u = true)
         (uuid4 env <$> seq 0 (draws w)).

(** The result path generated with the [k]-th UUID. *)
Definition result_path_of (k : nat) : pystr :=
  (Storage.generate_result_path (RESULTS_DIR (settings env)) (uuid4 env k)
     (lit "enhanced.jpg")).2.

(** Every result path of the store was generated from a UUID drawn so far,
    and no two edits hold the same one. *)
Record DistinctPaths (w : World) : Prop := {
  dp_drawn :
    ∀ eid e p, edits (db w) !! eid = Some e → e_result_path e = Some p →
      ∃ k, (k < draws w)%nat ∧ p = result_path_of k;
  dp_distinct :
    ∀ eid1 eid2 e1 e2 p,
      edits (db w) !! eid1 = Some e1 → edits (db w) !! eid2 = Some e2 →
      e_result_path e1 = Some p → e_result_path e2 = Some p → eid1 = eid2;
}.

End Consistency.

(** * Properties *)

(** ** The usage counter (db.py) *)

(** Unfolds the projections and setters of the store, leaving the maps
    folded. *)
Ltac store_simpl :=
  cbn [fst snd images edits subscriptions usage set_images set_edits
       set_subscriptions set_usage from_option id] in *.

Section UsageCounter.

Lemma get_usage_increment_usage_same (d : InMemoryDB) (user_id metric : pystr)
    (amount : Z) :
  get_usage user_id (increment_usage user_id metric amount d).2
  = <[metric := default 0 (get_usage user_id d !! metric) + amount]>
      (get_usage user_id d).
Proof.
  unfold increment_usage, get_usage.
  destruct (usage d !! user_id) as [per_user|] eqn:Hu; store_simpl.
  - rewrite Hu; store_simpl. by rewrite lookup_insert_eq.
  - by rewrite !lookup_insert_eq.
Qed.

Lemma increment_usage_total (d : InMemoryDB) (user_id metric : pystr)
    (amount : Z) :
  (increment_usage user_id metric amount d).1
  = default 0 (get_usage user_id d !! metric) + amount.
Proof.
  unfold increment_usage, get_usage.
  destruct (usage d !! user_id) as [per_user|] eqn:Hu; store_simpl.
  - rewrite Hu; store_simpl. rewrite lookup_insert_eq; store_simpl.
    by rewrite lookup_insert_eq.
  - rewrite !lookup_insert_eq; store_simpl. by rewrite lookup_insert_eq.
Qed.

Lemma get_usage_increment_usage_other (d : InMemoryDB) (u user_id metric : pystr)
    (amount : Z) :
  u ≠ user_id →
  get_usage u (increment_usage user_id metric amount d).2 = get_usage u d.
Proof.
  intros Hne. unfold increment_usage, get_usage.
  destruct (usage d !! user_id) as [per_user|] eqn:Hu; store_simpl.
  - by rewrite lookup_insert_ne.
  - by rewrite !lookup_insert_ne.
Qed.

Lemma increment_usage_frame (d : InMemoryDB) (user_id metric : pystr) (amount : Z) :
  let d' := (increment_usage user_id metric amount d).2 in
  images d' = images d ∧ edits d' = edits d ∧ subscriptions d' = subscriptions d.
Proof.
  unfold increment_usage. by destruct (usage d !! user_id).
Qed.

End UsageCounter.

(** C10. [increment_usage] returns the previous value of the metric plus the
    amount, and [get_usage] afterwards maps the metric to that same total,
    every other metric and every other user being as before; the previous
    value of a metric never seen is 0, so that the first increment by the
    default amount 1 returns 1, and [get_usage] of a user never seen is the
    empty mapping. *)
Theorem increment_usage_then_get_usage (d : InMemoryDB)
    (user_id metric : pystr) (amount : Z) :
  let previous := default 0 (get_usage user_id d !! metric) in
  let total := (increment_usage user_id metric amount d).1 in
  let d' := (increment_usage user_id metric amount d).2 in
  total = previous + amount ∧
  get_usage user_id d' !! metric = Some total ∧
  (∀ m, m ≠ metric → get_usage user_id d' !! m = get_usage user_id d !! m) ∧
  (∀ u, u ≠ user_id → get_usage u d' = get_usage u d) ∧
  (usage d !! user_id = None → get_usage user_id d = ∅) ∧
  (get_usage user_id d !! metric = None →
   previous = 0 ∧ (increment_usage user_id metric 1 d).1 = 1).
Proof.
  cbn zeta. rewrite increment_usage_total, get_usage_increment_usage_same.
  split; [done |]. split; [by rewrite lookup_insert_eq |].
  split; [intros m Hm; by rewrite lookup_insert_ne |].
  split; [intros u Hu; by apply get_usage_increment_usage_other |].
  split.
  - intros Hnone. unfold get_usage. by rewrite Hnone.
  - intros Hnone. rewrite increment_usage_total, Hnone. done.
Qed.

(** C10 on the empty store: the first increment of an unseen user. *)
Lemma increment_usage_then_get_usage_witness :
  (increment_usage (lit "u1") (lit "edits_completed") 1 DB.empty).1 = 1 ∧
  get_usage (lit "u1") DB.empty = ∅ ∧
  get_usage (lit "u2")
    (increment_usage (lit "u1") (lit "edits_completed") 1 DB.empty).2 = ∅.
Proof.
  pose proof (increment_usage_then_get_usage DB.empty (lit "u1")
                (lit "edits_completed") 1) as (Ht & _ & _ & Ho & He & Hf).
  split; [| split].
  - apply Hf. reflexivity.
  - apply He. reflexivity.
  - rewrite (Ho (lit "u2")); [reflexivity | by vm_compute].
Defined.

(** ** Result paths (storage.py) *)

Module StorageFacts.
Import Storage.

Lemma SAFE_CHARS_RE_sub_map (s : pystr) :
  SAFE_CHARS_RE_sub [underscore] s = sanitize <$> s.
Proof.
  induction s as [|c s IH]; [done |].
  unfold SAFE_CHARS_RE_sub in *. cbn [flat_map]. rewrite IH, fmap_cons.
  unfold sanitize at 2. by destruct (in_class c).
Qed.

Lemma sanitize_in_class (c : N) : in_class (sanitize c) = true.
Proof. unfold sanitize. by destruct (in_class c) eqn:Hc. Qed.

Lemma safe_filename_map (original : pystr) :
  safe_filename original = take 100 (sanitize <$> basename original).
Proof. unfold safe_filename. by rewrite SAFE_CHARS_RE_sub_map. Qed.

Lemma safe_filename_in_class (original : pystr) :
  Forall (fun c => in_class c = true) (safe_filename original).
Proof.
  rewrite safe_filename_map. apply Forall_take, Forall_fmap, Forall_true.
  intros c. apply sanitize_in_class.
Qed.

Lemma safe_filename_length (original : pystr) :
  (length (safe_filename original) ≤ 100)%nat.
Proof. rewrite safe_filename_map, length_take. lia. Qed.

(** A UUID text has 36 characters, each a hexadecimal digit or a hyphen. *)
Lemma uuid_shape_inv (i : nat) (s : pystr) :
  uuid_shape i s = true →
  (i + length s = 36)%nat ∧
  Forall (fun c => is_hex c = true ∨ c = hyphen) s.
Proof.
  revert i. induction s as [|c s IH]; intros i; cbn [uuid_shape length].
  - intros ->%Nat.eqb_eq. split; [lia | constructor].
  - intros [Hc Hs]%andb_true_iff. destruct (IH _ Hs) as [Hlen Hall].
    split; [lia |]. constructor; [| done].
    destruct (_ || _); [right; by apply N.eqb_eq | by left].
Qed.

Lemma is_uuid_str_length (u : pystr) :
  is_uuid_str u = true → length u = 36%nat.
Proof. intros H. by destruct (uuid_shape_inv 0 u H) as [? _]. Qed.

Lemma is_hex_in_class (c : N) : is_hex c = true → in_class c = true.
Proof.
  unfold is_hex, in_class.
  rewrite !orb_true_iff, !andb_true_iff, !N.leb_le, !N.eqb_eq. lia.
Qed.

Lemma is_uuid_str_in_class (u : pystr) :
  is_uuid_str u = true → Forall (fun c => in_class c = true) u.
Proof.
  intros H. destruct (uuid_shape_inv 0 u H) as [_ Hall].
  eapply Forall_impl; [exact Hall |].
  intros c [Hc | ->]; [by apply is_hex_in_class | done].
Qed.

Lemma in_class_no_slash (s : pystr) :
  Forall (fun c => in_class c = true) s → slash ∉ s.
Proof.
  intros Hall Hin. rewrite Forall_forall in Hall.
  by specialize (Hall _ Hin).
Qed.

(** [rfind] on a text without the character, and on one whose last
    occurrence is known. *)
Lemma rfind_from_absent (i : Z) (c : N) (s : pystr) :
  c ∉ s → rfind_from i c s = -1.
Proof.
  revert i. induction s as [|x s IH]; intros i Hc; [done |].
  cbn [rfind_from]. rewrite IH by set_solver.
  destruct (N.eqb_spec x c) as [-> |]; [set_solver | done].
Qed.

Lemma rfind_from_last (i : Z) (c : N) (a f : pystr) :
  0 ≤ i → c ∉ f → rfind_from i c (a ++ c :: f) = i + Z.of_nat (length a).
Proof.
  revert i. induction a as [|x a IH]; intros i Hi Hc.
  - cbn [app rfind_from length]. rewrite rfind_from_absent by done.
    rewrite N.eqb_refl. cbn. lia.
  - cbn [app rfind_from length]. rewrite IH by (done || lia).
    destruct (Z.leb_spec 0 (i + 1 + Z.of_nat (length a))); lia.
Qed.

Lemma basename_no_slash (f : pystr) : slash ∉ f → basename f = f.
Proof.
  intros Hf. unfold basename, rfind. by rewrite rfind_from_absent.
Qed.

Lemma basename_after_slash (a f : pystr) :
  slash ∉ f → basename (a ++ slash :: f) = f.
Proof.
  intros Hf. unfold basename, rfind. rewrite rfind_from_last by done.
  replace (Z.to_nat (0 + Z.of_nat (length a) + 1)) with (length a + 1)%nat by lia.
  rewrite <- drop_drop, drop_app_length. done.
Qed.

Lemma endswith_last (c : N) (a : pystr) :
  endswith c a = true → ∃ a', a = a' ++ [c].
Proof.
  unfold endswith. destruct (last a) as [x|] eqn:Hl; [| done].
  intros ->%N.eqb_eq. apply last_Some in Hl. done.
Qed.

(** [os.path.join] with a second component that does not start with a
    slash appends it, after a separator when one is needed. *)
Lemma path_join_relative (a b : pystr) :
  startswith slash b = false →
  ∃ sep, path_join a b = a ++ sep ++ b ∧
         (sep = [slash] ∨
          sep = [] ∧ (a = [] ∨ endswith slash a = true)).
Proof.
  intros Hb. unfold path_join. rewrite Hb.
  case_bool_decide as Ha; cbn [orb].
  - exists []. split; [done |]. right. by split; [| left].
  - destruct (endswith slash a) eqn:He.
    + exists []. split; [done |]. right. by split; [| right].
    + exists [slash]. split; [done |]. by left.
Qed.

Lemma unique_name_relative (u safe : pystr) :
  is_uuid_str u = true → startswith slash (u ++ underscore :: safe) = false.
Proof.
  intros Hu. pose proof (is_uuid_str_length u Hu) as Hlen.
  pose proof (is_uuid_str_in_class u Hu) as Hall.
  destruct u as [|c u]; [done |]. cbn.
  apply Forall_cons in Hall as [Hc _].
  destruct (N.eqb_spec c slash) as [-> |]; done.
Qed.

Lemma unique_name_no_slash (u original : pystr) :
  is_uuid_str u = true → slash ∉ u ++ underscore :: safe_filename original.
Proof.
  intros Hu. apply in_class_no_slash, Forall_app. split.
  - by apply is_uuid_str_in_class.
  - constructor; [done | apply safe_filename_in_class].
Qed.

Lemma generate_result_path_inj (dir u u' hint hint' : pystr) :
  is_uuid_str u = true → is_uuid_str u' = true →
  generate_result_path dir u hint = generate_result_path dir u' hint' →
  u = u'.
Proof.
  intros Hu Hu' Heq. unfold generate_result_path in Heq.
  apply (f_equal snd) in Heq. cbn [snd] in Heq.
  unfold path_join in Heq.
  rewrite !unique_name_relative in Heq by done.
  assert (u ++ underscore :: safe_filename hint
          = u' ++ underscore :: safe_filename hint') as Happ.
  { destruct (_ || _); simplify_list_eq; done. }
  apply app_inj_1 in Happ as [? _]; [done |].
  by rewrite !is_uuid_str_length.
Qed.

End StorageFacts.



(** ** The executor (edits.py, [process_edit]) *)

(** Unfolds the computations down to state passing, keeping the projections
    and setters of the state folded. *)
Ltac run_m :=
  cbv beta iota zeta delta
    [Edits.process_edit Edits.process_edit_try Edits.process_edit_except
     Edits.create_edit Edits.list_edits Edits.add_task
     Subscriptions.get_subscription_status
     Subscriptions.on_subscription_created
     Subscriptions.on_subscription_deleted
     try_except outside outcome emit modify gets run_db raise
     db_update_edit db_create_edit db_create_image db_get_image
     db_list_edits_for_image db_set_subscription db_get_subscription
     db_increment_usage db_get_usage send_notification audit_event
     uuid4_str utcnow_iso mbind M_bind mret M_ret
     Storage.generate_result_path];
  cbn [db tasks draws ticks log
       set_db set_tasks set_draws set_ticks set_log fst snd].

(** Two states are equal when their components are. *)
Lemma World_eq (w1 w2 : World) :
  db w1 = db w2 → tasks w1 = tasks w2 → draws w1 = draws w2 →
  ticks w1 = ticks w2 → log w1 = log w2 → w1 = w2.
Proof. destruct w1, w2; cbn. by intros -> -> -> -> ->. Qed.

Ltac world_eq :=
  f_equal; apply World_eq;
  cbn [db tasks draws ticks log
       set_db set_tasks set_draws set_ticks set_log];
  first [ reflexivity | rewrite <- ?app_assoc; reflexivity ].

Ltac raised_side :=
  repeat split;
  first [ done | lia | cbn; lia
        | repeat (constructor; [by split |]); constructor ].

Section Executor.
Context (env : Env) (ext : Edits.Externals).
Context (user_id edit_id image_path prompt : pystr).

Local Abbreviation failure := (external_failure env ext image_path prompt).
Local Abbreviation rel_at := (rel_path_at env).
Local Abbreviation stored := (stored_entry edit_id).

(** When an outside call fails, the [try] block raises its exception; the
    store, the pending tasks and the clock are as before, and the trace
    has grown by outside calls only, at most one of them a POST. *)
Lemma process_edit_try_raised (w : World) (e : Edits.PyException) :
  failure w = Some e →
  ∃ w1 pre,
    Edits.process_edit_try env ext user_id edit_id image_path prompt w
    = (Raised e, w1) ∧
    db w1 = db w ∧ tasks w1 = tasks w ∧ ticks w1 = ticks w ∧
    (draws w ≤ draws w1)%nat ∧
    log w1 = log w ++ pre ∧
    Forall (fun x => is_outside x.1 = true ∧ x.2 = db w) pre ∧
    (length (List.filter is_post pre.*1) ≤ 1)%nat.
Proof.
  unfold external_failure, rel_path_at. run_m.
  destruct (Edits.open_rb ext image_path) as [image|e1] eqn:H1.
  2:{ intros [= <-]. run_m. eexists _, _. split; [reflexivity |].
      cbn [db tasks draws ticks log set_log set_draws].
      raised_side. }
  run_m.
  destruct (Edits.post_enhance ext image prompt) as [url|e2] eqn:H2.
  2:{ intros [= <-]. run_m. eexists _, _. split; [reflexivity |].
      cbn [db tasks draws ticks log set_log set_draws].
      rewrite <- !app_assoc.
      raised_side. }
  run_m.
  destruct (Edits.get_content ext url) as [content|e3] eqn:H3.
  2:{ intros [= <-]. run_m. eexists _, _. split; [reflexivity |].
      cbn [db tasks draws ticks log set_log set_draws].
      rewrite <- !app_assoc.
      raised_side. }
  run_m.
  destruct (Edits.write_file ext _ content) as [[]|e4] eqn:H4; [done |].
  intros [= <-]. run_m. eexists _, _. split; [reflexivity |].
  cbn [db tasks draws ticks log set_log set_draws].
  rewrite <- !app_assoc.
  raised_side.
Qed.

(** The [except] block: the edit, when it exists, is stored as failed,
    one notification is sent and one audit record emitted, and nothing is
    raised. *)
Lemma process_edit_except_run (w1 : World) (e : Edits.PyException) :
  let found := truthy (edits (db w1) !! edit_id) in
  let d1 := (update_edit (utcnow env (ticks w1)) edit_id
               {| f_status := Some failed; f_result_path := None |}
               (db w1)).2 in
  let t1 := if found then S (ticks w1) else ticks w1 in
  Edits.process_edit_except env user_id edit_id e w1
  = (Ok tt,
     {| db := d1; tasks := tasks w1; draws := draws w1; ticks := S t1;
        log := log w1
               ++ stored (db w1) d1
               ++ [(Sent user_id edit_status
                      (EditStatusPayload edit_id failed None
                         (Some (Edits.str_e e))), d1);
                   (Audited (utcnow env t1) (lit "edit_failed") user_id
                      [(lit "edit_id", edit_id);
                       (lit "error", Edits.str_e e)], d1)] |}).
Proof.
  cbn zeta. unfold stored_entry. run_m. unfold update_edit.
  destruct (edits (db w1) !! edit_id) as [ed|] eqn:Hed; run_m.
  - cbn [truthy edits set_edits]. rewrite lookup_insert_eq.
    world_eq.
  - cbn [truthy]. rewrite Hed. world_eq.
Qed.

(** When every outside call succeeds, the [try] block runs to its end. *)
Lemma process_edit_try_ok (w : World) :
  failure w = None →
  ∃ image url content,
    Edits.open_rb ext image_path = Ok image ∧
    Edits.post_enhance ext image prompt = Ok url ∧
    Edits.get_content ext url = Ok content ∧
    let rel := rel_at w in
    let found := truthy (edits (db w) !! edit_id) in
    let d1 := (update_edit (utcnow env (ticks w)) edit_id
                 {| f_status := Some completed; f_result_path := Some rel |}
                 (db w)).2 in
    let t1 := if found then S (ticks w) else ticks w in
    let usage := (increment_usage user_id (lit "edits_completed") 1 d1).1 in
    let d2 := (increment_usage user_id (lit "edits_completed") 1 d1).2 in
    Edits.process_edit_try env ext user_id edit_id image_path prompt w
    = (Ok tt,
       {| db := d2; tasks := tasks w; draws := S (draws w); ticks := S t1;
          log := log w
            ++ [(FileOpened image_path, db w);
                (HttpPost (GOOGLE_NANO_BANANA_API_URL (settings env)
                             ++ lit "/enhance") prompt, db w);
                (HttpGet url, db w);
                (FileWritten rel content, db w)]
            ++ stored (db w) d1
            ++ [(Sent user_id edit_status
                   (EditStatusPayload edit_id completed (Some rel) None), d1)]
            ++ (if negb (truthy (get_subscription user_id d2))
                   && (8 <=? usage)
                then [(Sent user_id usage_alert
                         (UsageAlertPayload Edits.usage_alert_message
                            (10 - usage)), d2)]
                else [])
            ++ [(Audited (utcnow env t1) (lit "edit_completed") user_id
                   [(lit "edit_id", edit_id); (lit "image_path", rel)], d2)]
       |}).
Proof.
  unfold external_failure, rel_path_at, stored_entry. run_m.
  destruct (Edits.open_rb ext image_path) as [image|e1] eqn:H1; [| done].
  run_m.
  destruct (Edits.post_enhance ext image prompt) as [url|e2] eqn:H2; [| done].
  run_m.
  destruct (Edits.get_content ext url) as [content|e3] eqn:H3; [| done].
  run_m.
  destruct (Edits.write_file ext _ content) as [[]|e4] eqn:H4; [| done].
  intros _. exists image, url, content. repeat (split; [done |]).
  run_m. unfold update_edit.
  destruct (edits (db w) !! edit_id) as [ed|] eqn:Hed; run_m.
  - destruct (increment_usage _ _ _ _) as [usage d2] eqn:Hinc. run_m.
    cbn [truthy edits set_edits]. rewrite lookup_insert_eq.
    destruct (negb _ && _); run_m; world_eq.
  - destruct (increment_usage _ _ _ _) as [usage d2] eqn:Hinc. run_m.
    cbn [truthy]. rewrite Hed.
    destruct (negb _ && _); run_m; world_eq.
Qed.

(** [update_edit] writes the edits only. *)
Lemma update_edit_frame (now eid : pystr) (fields : EditFields) (d : InMemoryDB) :
  let d' := (update_edit now eid fields d).2 in
  images d' = images d ∧ subscriptions d' = subscriptions d ∧
  usage d' = usage d.
Proof. unfold update_edit. by destruct (edits d !! eid). Qed.

Lemma update_edit_lookup (now eid : pystr) (fields : EditFields)
    (d : InMemoryDB) (ed : Edit) :
  edits d !! eid = Some ed →
  edits (update_edit now eid fields d).2
  = <[eid := apply_fields fields now ed]> (edits d).
Proof. unfold update_edit. by intros ->. Qed.

Lemma update_edit_absent (now eid : pystr) (fields : EditFields) (d : InMemoryDB) :
  edits d !! eid = None → (update_edit now eid fields d).2 = d.
Proof. unfold update_edit. by intros ->. Qed.

Lemma stored_entry_found (d : InMemoryDB) (now : pystr) (fields : EditFields)
    (ed : Edit) :
  edits d !! edit_id = Some ed →
  let d' := (update_edit now edit_id fields d).2 in
  stored d d'
  = [(EditStored edit_id (e_status (apply_fields fields now ed))
        (e_result_path (apply_fields fields now ed)), d')].
Proof.
  intros Hed. cbn zeta. unfold stored_entry.
  rewrite (update_edit_lookup _ _ _ _ _ Hed), lookup_insert_eq, Hed. done.
Qed.

(** [process_edit] never raises: a failure of the [try] block is handled,
    and the handler does not fail. *)
Lemma process_edit_returns (w : World) :
  ∃ w', Edits.process_edit env ext user_id edit_id image_path prompt w
        = (Ok tt, w').
Proof.
  unfold Edits.process_edit, try_except.
  destruct (failure w) as [e|] eqn:Hf.
  - destruct (process_edit_try_raised w e Hf) as (w1 & pre & -> & _).
    eexists. apply process_edit_except_run.
  - destruct (process_edit_try_ok w Hf) as (? & ? & ? & _ & _ & _ & ->).
    by eexists.
Qed.

(** The run on the failure path. *)
Lemma process_edit_failed (w : World) (e : Edits.PyException) :
  failure w = Some e →
  ∃ w' pre,
    Edits.process_edit env ext user_id edit_id image_path prompt w
    = (Ok tt, w') ∧
    let d1 := (update_edit (utcnow env (ticks w)) edit_id
                 {| f_status := Some failed; f_result_path := None |}
                 (db w)).2 in
    db w' = d1 ∧ tasks w' = tasks w ∧ (draws w ≤ draws w')%nat ∧
    Forall (fun x => is_outside x.1 = true ∧ x.2 = db w) pre ∧
    (length (List.filter is_post pre.*1) ≤ 1)%nat ∧
    ∃ ts,
      log w' = log w ++ pre ++ stored (db w) d1
               ++ [(Sent user_id edit_status
                      (EditStatusPayload edit_id failed None
                         (Some (Edits.str_e e))), d1);
                   (Audited ts (lit "edit_failed") user_id
                      [(lit "edit_id", edit_id);
                       (lit "error", Edits.str_e e)], d1)].
Proof.
  intros Hf.
  destruct (process_edit_try_raised w e Hf)
    as (w1 & pre & Htry & Hdb & Htasks & Hticks & Hdraws & Hlog & Hpre & Hposts).
  eexists _, pre. split.
  { unfold Edits.process_edit, try_except. rewrite Htry.
    apply process_edit_except_run. }
  cbv zeta. cbn [db tasks draws ticks log].
  rewrite Hdb, Htasks, Hticks, Hlog.
  repeat (split; [done |]). eexists. by rewrite <- app_assoc.
Qed.

End Executor.

(** *** Reading the trace *)

Lemma filter_none {A} (f : A → bool) (l : list A) :
  Forall (fun x => f x = false) l → List.filter f l = [].
Proof.
  induction 1 as [|x l Hx _ IH]; [done |]. cbn. by rewrite Hx.
Qed.

Lemma effects_since_app (w w' : World) (new : list (Effect * InMemoryDB)) :
  log w' = log w ++ new → effects_since w w' = new.*1.
Proof.
  intros Hlog. unfold effects_since. by rewrite Hlog, drop_app_length.
Qed.

Lemma outside_entries (d : InMemoryDB) (pre : list (Effect * InMemoryDB))
    (f : Effect → bool) :
  (∀ ef, is_outside ef = true → f ef = false) →
  Forall (fun x => is_outside x.1 = true ∧ x.2 = d) pre →
  List.filter f pre.*1 = [].
Proof.
  intros Hf Hpre. apply filter_none, Forall_fmap.
  eapply Forall_impl; [exact Hpre |]. intros [ef ?] [Ho _]. by apply Hf.
Qed.

(** C5. When an outside call of steps 1 to 3 raises, [process_edit] returns
    normally (nothing propagates to a caller), the edit is stored as failed
    with its result path untouched, exactly one notification is sent, an
    [edit_status] with status failed and the text of the exception, exactly
    one audit record is emitted, [edit_failed], at most one POST was
    attempted and no task is scheduled again. *)
Theorem failure_path_marks_failed (env : Env) (ext : Edits.Externals)
    (user_id edit_id image_path prompt : pystr) (w : World)
    (e : Edits.PyException) (ed : Edit) :
  external_failure env ext image_path prompt w = Some e →
  edits (db w) !! edit_id = Some ed →
  ∃ w',
    Edits.process_edit env ext user_id edit_id image_path prompt w
    = (Ok tt, w') ∧
    (∃ ed', edits (db w') !! edit_id = Some ed' ∧ e_status ed' = failed ∧
            e_result_path ed' = e_result_path ed) ∧
    List.filter is_stored (effects_since w w')
    = [EditStored edit_id failed (e_result_path ed)] ∧
    List.filter is_sent (effects_since w w')
    = [Sent user_id edit_status
         (EditStatusPayload edit_id failed None (Some (Edits.str_e e)))] ∧
    (∃ ts, List.filter is_audited (effects_since w w')
           = [Audited ts (lit "edit_failed") user_id
                [(lit "edit_id", edit_id); (lit "error", Edits.str_e e)]]) ∧
    (length (List.filter is_post (effects_since w w')) ≤ 1)%nat ∧
    tasks w' = tasks w.
Proof.
  intros Hf Hed.
  destruct (process_edit_failed env ext user_id edit_id image_path prompt w e Hf)
    as (w' & pre & Hrun & Hdb & Htasks & _ & Hpre & Hposts & ts & Hlog).
  exists w'. split; [done |].
  rewrite (stored_entry_found _ _ _ _ _ Hed) in Hlog.
  rewrite (effects_since_app _ _ _ Hlog).
  rewrite !fmap_app, !List.filter_app.
  rewrite (outside_entries _ _ is_stored) by (done || by intros []).
  rewrite (outside_entries _ _ is_sent) by (done || by intros []).
  rewrite (outside_entries _ _ is_audited) by (done || by intros []).
  split.
  { rewrite Hdb, (update_edit_lookup _ _ _ _ _ Hed), lookup_insert_eq.
    by eexists. }
  split; [done |]. split; [done |]. split; [by exists ts |].
  split; [| done]. cbn. rewrite length_app. cbn. lia.
Qed.

(** C3 (amended). After a run of [process_edit] whose outside calls all
    succeed, the completion counter of the user is one more than before, and
    a [usage_alert] is sent exactly when the store holds no subscription
    record for the user and the updated count is at least 8. It is then the
    only one of the run and carries 10 minus the updated count; it is sent on
    every such completion, there is no latch. With a subscription record of
    any status, none is sent whatever the count. *)
Theorem usage_alert_sent_iff (env : Env) (ext : Edits.Externals)
    (user_id edit_id image_path prompt : pystr) (w : World) :
  external_failure env ext image_path prompt w = None →
  let used := default 0 (get_usage user_id (db w) !! lit "edits_completed") in
  ∃ w',
    Edits.process_edit env ext user_id edit_id image_path prompt w
    = (Ok tt, w') ∧
    get_usage user_id (db w') !! lit "edits_completed" = Some (used + 1) ∧
    get_subscription user_id (db w') = get_subscription user_id (db w) ∧
    (get_subscription user_id (db w) = None → 8 ≤ used + 1 →
     List.filter is_usage_alert (effects_since w w')
     = [Sent user_id usage_alert
          (UsageAlertPayload Edits.usage_alert_message (10 - (used + 1)))]) ∧
    (is_Some (get_subscription user_id (db w)) ∨ used + 1 < 8 →
     List.filter is_usage_alert (effects_since w w') = []).
Proof.
  intros Hf used.
  destruct (process_edit_try_ok env ext user_id edit_id image_path prompt w Hf)
    as (image & url & content & _ & _ & _ & Hrun).
  cbn zeta in Hrun.
  set (rel := rel_path_at env w) in *.
  set (d1 := (update_edit _ edit_id _ (db w)).2) in *.
  destruct (update_edit_frame (utcnow env (ticks w)) edit_id
              {| f_status := Some completed; f_result_path := Some rel |}
              (db w)) as (_ & Hsub1 & Husage1).
  fold d1 in Hsub1, Husage1.
  assert (get_usage user_id d1 = get_usage user_id (db w)) as Hgu
    by (unfold get_usage; by rewrite Husage1).
  pose proof (increment_usage_total d1 user_id (lit "edits_completed") 1) as Htot.
  pose proof (get_usage_increment_usage_same d1 user_id (lit "edits_completed") 1)
    as Hsame.
  destruct (increment_usage_frame d1 user_id (lit "edits_completed") 1)
    as (_ & _ & Hsub2).
  rewrite Hgu in Htot, Hsame. fold used in Htot, Hsame.
  set (d2 := (increment_usage user_id (lit "edits_completed") 1 d1).2) in *.
  assert (get_subscription user_id d2 = get_subscription user_id (db w)) as Hgs
    by (unfold get_subscription; by rewrite Hsub2, Hsub1).
  rewrite Htot, Hgs in Hrun.
  eexists. split.
  { unfold Edits.process_edit, try_except. rewrite Hrun. reflexivity. }
  cbn [db log].
  split; [by rewrite Hsame, lookup_insert_eq |]. split; [done |].
  assert (∀ alert : list (Effect * InMemoryDB),
    List.filter is_usage_alert
      (effects_since w
         {| db := d2; tasks := tasks w; draws := S (draws w);
            ticks := S (if truthy (edits (db w) !! edit_id)
                        then S (ticks w) else ticks w);
            log := log w
              ++ [(FileOpened image_path, db w);
                  (HttpPost (GOOGLE_NANO_BANANA_API_URL (settings env)
                               ++ lit "/enhance") prompt, db w);
                  (HttpGet url, db w); (FileWritten rel content, db w)]
              ++ stored_entry edit_id (db w) d1
              ++ [(Sent user_id edit_status
                     (EditStatusPayload edit_id completed (Some rel) None), d1)]
              ++ alert
              ++ [(Audited
                     (utcnow env (if truthy (edits (db w) !! edit_id)
                                  then S (ticks w) else ticks w))
                     (lit "edit_completed") user_id
                     [(lit "edit_id", edit_id); (lit "image_path", rel)], d2)]
         |})
    = List.filter is_usage_alert alert.*1) as Hfilter.
  { intros alert. erewrite effects_since_app by (cbn [log]; reflexivity).
    rewrite !fmap_app, !List.filter_app. cbn [fmap list_fmap List.filter fst is_usage_alert].
    assert (List.filter is_usage_alert (stored_entry edit_id (db w) d1).*1 = [])
      as ->.
    { unfold stored_entry. destruct (edits d1 !! edit_id); [| done].
      by destruct (truthy _). }
    by rewrite app_nil_r. }
  split.
  - intros Hnone Hge. rewrite Hnone. cbn [truthy negb andb].
    destruct (Z.leb_spec 8 (used + 1)); [| lia].
    by rewrite Hfilter.
  - intros Hcase. rewrite Hfilter.
    destruct Hcase as [[s Hs] | Hlt].
    + by rewrite Hs.
    + destruct (Z.leb_spec 8 (used + 1)); [lia |]. by rewrite andb_false_r.
Qed.

(** C8. In every run of [process_edit] on an edit of the store, the trace
    reads: outside calls, during which the store is as it was; the write
    that stores the edit's terminal status; immediately after it the
    [edit_status] notification of that same status, sent while the store
    holds what the write left; and then entries that neither write an edit
    nor send another [edit_status]. The edits of the final store are those
    the notification was sent with, so that a client fetching the edit on
    receipt reads the status, and for a completed edit the result path, that
    the notification carries. *)
Theorem store_write_precedes_notification (env : Env) (ext : Edits.Externals)
    (user_id edit_id image_path prompt : pystr) (w : World) (ed : Edit) :
  edits (db w) !! edit_id = Some ed →
  ∃ w' before after st rp payload_rp err d,
    Edits.process_edit env ext user_id edit_id image_path prompt w
    = (Ok tt, w') ∧
    log w' = log w ++ before
             ++ [(EditStored edit_id st rp, d);
                 (Sent user_id edit_status
                    (EditStatusPayload edit_id st payload_rp err), d)]
             ++ after ∧
    Forall (fun x => is_outside x.1 = true ∧ x.2 = db w) before ∧
    Forall (fun x => is_stored x.1 = false ∧ is_edit_status x.1 = false ∧
                     edits x.2 = edits d) after ∧
    (∃ ed', edits d !! edit_id = Some ed' ∧ e_status ed' = st ∧
            e_result_path ed' = rp) ∧
    (st = completed ∧ payload_rp = rp ∧ is_Some rp ∧ err = None ∨
     st = failed ∧ payload_rp = None ∧ is_Some err) ∧
    edits (db w') = edits d.
Proof.
  intros Hed.
  destruct (external_failure env ext image_path prompt w) as [e|] eqn:Hf.
  - destruct (process_edit_failed env ext user_id edit_id image_path prompt w e Hf)
      as (w' & pre & Hrun & Hdb & _ & _ & Hpre & _ & ts & Hlog).
    rewrite (stored_entry_found _ _ _ _ _ Hed) in Hlog.
    cbn [apply_fields e_status e_result_path f_status f_result_path
         from_option id] in Hlog.
    eexists w', pre, _, failed, _, None, _, _.
    split; [done |]. split; [exact Hlog |]. split; [done |].
    split; [by repeat constructor |].
    split.
    { rewrite (update_edit_lookup _ _ _ _ _ Hed), lookup_insert_eq.
      by eexists. }
    split; [right; by eauto |]. by rewrite Hdb.
  - destruct (process_edit_try_ok env ext user_id edit_id image_path prompt w Hf)
      as (image & url & content & _ & _ & _ & Hrun).
    cbn zeta in Hrun.
    rewrite (stored_entry_found _ _ _ _ _ Hed) in Hrun.
    cbn [apply_fields e_status e_result_path f_status f_result_path
         from_option id] in Hrun.
    set (rel := rel_path_at env w) in *.
    set (d1 := (update_edit _ edit_id _ (db w)).2) in *.
    destruct (increment_usage_frame d1 user_id (lit "edits_completed") 1)
      as (_ & Hedits2 & _).
    set (d2 := (increment_usage user_id (lit "edits_completed") 1 d1).2) in *.
    eexists _,
      [(FileOpened image_path, db w);
       (HttpPost (GOOGLE_NANO_BANANA_API_URL (settings env) ++ lit "/enhance")
          prompt, db w);
       (HttpGet url, db w); (FileWritten rel content, db w)],
      (_ ++ [_]), completed, (Some rel), (Some rel), None, d1.
    split.
    { unfold Edits.process_edit, try_except. rewrite Hrun. reflexivity. }
    cbn [db log].
    split; [reflexivity |].
    split; [by repeat constructor |].
    split.
    { apply Forall_app. split; [| by repeat constructor].
      destruct (negb _ && _); by repeat constructor. }
    split.
    { subst d1. rewrite (update_edit_lookup _ _ _ _ _ Hed), lookup_insert_eq.
      by eexists. }
    split; [left; by eauto | done].
Qed.

(** ** The controller (edits.py, [create_edit] and [list_edits]) *)

Section Controller.
Context (env : Env).

Lemma create_edit_not_found (image_id user_id : pystr)
    (edit : Edits.EditRequest) (w : World) :
  get_image user_id image_id (db w) = None →
  Edits.create_edit env image_id edit user_id w
  = (Raised {| Edits.status_code := 404;
               Edits.detail := lit "Image not found" |}, w).
Proof. intros Hg. run_m. by rewrite Hg. Qed.

Lemma list_edits_not_found (image_id user_id : pystr) (w : World) :
  get_image user_id image_id (db w) = None →
  Edits.list_edits image_id user_id w
  = (Raised {| Edits.status_code := 404;
               Edits.detail := lit "Image not found" |}, w).
Proof. intros Hg. run_m. by rewrite Hg. Qed.

Lemma list_edits_found (image_id user_id : pystr) (w : World) (img : Image) :
  get_image user_id image_id (db w) = Some img →
  Edits.list_edits image_id user_id w
  = (Ok (Edits.EditResponse_of
           <$> list_edits_for_image user_id image_id (db w)), w).
Proof. intros Hg. run_m. by rewrite Hg. Qed.

(** The run of [create_edit] on an image the user owns. *)
Lemma create_edit_found (image_id user_id : pystr)
    (edit : Edits.EditRequest) (w : World) (img : Image) :
  get_image user_id image_id (db w) = Some img →
  let u := uuid4 env (draws w) in
  let rec := {| e_id := u; e_user_id := user_id; e_image_id := image_id;
                e_prompt := Edits.prompt edit; e_status := queued;
                e_result_path := None;
                e_created_at := utcnow env (ticks w);
                e_updated_at := utcnow env (S (ticks w)) |} in
  let d := set_edits (insert u rec) (db w) in
  Edits.create_edit env image_id edit user_id w
  = (Ok (Edits.EditResponse_of rec),
     {| db := d;
        tasks := tasks w ++ [{| task_user_id := user_id; task_edit_id := u;
                                task_image_path := img_path img;
                                task_prompt := Edits.prompt edit |}];
        draws := S (draws w);
        ticks := S (S (S (ticks w)));
        log := log w
               ++ [(EditStored u queued None, d);
                   (Audited (utcnow env (S (S (ticks w))))
                      (lit "edit_requested") user_id
                      [(lit "edit_id", u); (lit "image_id", image_id);
                       (lit "prompt", Edits.prompt edit)], d)] |}).
Proof.
  intros Hg. cbn zeta. run_m. rewrite Hg. run_m.
  unfold DB.create_edit. run_m.
  world_eq.
Qed.

End Controller.

(** C7. When the image does not exist or belongs to another user, both
    [create_edit] and [list_edits] raise the 404 "Image not found", and the
    state of the process is exactly as before: no edit is created, no task
    scheduled, nothing written. *)
Theorem image_not_owned_not_found (env : Env) (w : World)
    (user_id image_id : pystr) (edit : Edits.EditRequest) :
  (images (db w) !! image_id = None ∨
   ∃ img, images (db w) !! image_id = Some img ∧ img_user_id img ≠ user_id) →
  Edits.create_edit env image_id edit user_id w
  = (Raised {| Edits.status_code := 404;
               Edits.detail := lit "Image not found" |}, w) ∧
  Edits.list_edits image_id user_id w
  = (Raised {| Edits.status_code := 404;
               Edits.detail := lit "Image not found" |}, w).
Proof.
  intros Himg.
  assert (get_image user_id image_id (db w) = None) as Hg.
  { unfold get_image. destruct Himg as [-> | (img & -> & Hne)]; [done |].
    by rewrite decide_False. }
  split; [by apply create_edit_not_found | by apply list_edits_not_found].
Qed.

(** ** The service as a whole *)

Section ServiceFacts.
Context (env : Env).

Lemma distinct_draws_mono (w w' : World) :
  (draws w ≤ draws w')%nat → distinct_draws env w' → distinct_draws env w.
Proof.
  unfold distinct_draws. intros Hle Hnd.
  replace (draws w') with (draws w + (draws w' - draws w))%nat in Hnd by lia.
  rewrite seq_app, fmap_app in Hnd. by apply NoDup_app in Hnd as [? _].
Qed.

Lemma distinct_draws_inj (w : World) (j k : nat) :
  distinct_draws env w → (j < draws w)%nat → (k < draws w)%nat →
  uuid4 env j = uuid4 env k → j = k.
Proof.
  unfold distinct_draws. intros Hnd Hj Hk Heq.
  eapply (NoDup_lookup _ j k (uuid4 env j) Hnd).
  - rewrite list_lookup_fmap, lookup_seq_lt by done. done.
  - rewrite list_lookup_fmap, lookup_seq_lt by done. cbn. by rewrite Heq.
Qed.

(** The UUID about to be drawn is the id of no edit. *)
Lemma next_uuid_fresh (w : World) :
  Inv env w → NoDup (uuid4 env <$> seq 0 (S (draws w))) →
  edits (db w) !! uuid4 env (draws w) = None.
Proof.
  intros HI Hnd. destruct (edits (db w) !! _) as [e|] eqn:He; [| done].
  destruct (inv_ids_drawn env w HI _ _ He) as (k & Hk & Heq).
  assert (draws w = k); [| lia].
  eapply (NoDup_lookup _ (draws w) k (uuid4 env (draws w)) Hnd).
  - rewrite list_lookup_fmap, lookup_seq_lt by lia. done.
  - rewrite list_lookup_fmap, lookup_seq_lt by lia. cbn. by rewrite Heq.
Qed.

(** What a run of [process_edit] does to the edits, the tasks and the
    draws. *)
Lemma process_edit_edits (ext : Edits.Externals)
    (user_id edit_id image_path prompt : pystr) (w : World) :
  ∃ w' fields,
    Edits.process_edit env ext user_id edit_id image_path prompt w
    = (Ok tt, w') ∧
    edits (db w')
    = edits (update_edit (utcnow env (ticks w)) edit_id fields (db w)).2 ∧
    tasks w' = tasks w ∧ (draws w ≤ draws w')%nat ∧
    (fields = {| f_status := Some completed;
                 f_result_path := Some (rel_path_at env w) |} ∧
     external_failure env ext image_path prompt w = None
     ∨ fields = {| f_status := Some failed; f_result_path := None |} ∧
       is_Some (external_failure env ext image_path prompt w)).
Proof.
  destruct (external_failure env ext image_path prompt w) as [e|] eqn:Hf.
  - destruct (process_edit_failed env ext user_id edit_id image_path prompt
                w e Hf)
      as (w' & pre & Hrun & Hdb & Htasks & Hdraws & _).
    exists w', {| f_status := Some failed; f_result_path := None |}.
    rewrite Hdb. repeat (split; [done |]). right. by eauto.
  - destruct (process_edit_try_ok env ext user_id edit_id image_path prompt
                w Hf)
      as (image & url & content & _ & _ & _ & Hrun).
    cbn zeta in Hrun.
    eexists _, {| f_status := Some completed;
                  f_result_path := Some (rel_path_at env w) |}.
    split.
    { unfold Edits.process_edit, try_except. rewrite Hrun. reflexivity. }
    cbn [db tasks draws].
    destruct (increment_usage_frame
                (update_edit (utcnow env (ticks w)) edit_id
                   {| f_status := Some completed;
                      f_result_path := Some (rel_path_at env w) |} (db w)).2
                user_id (lit "edits_completed") 1) as (_ & -> & _).
    repeat (split; [done || lia |]). by left.
Qed.

(** The task taken out of the list is not among the remaining ones. *)
Lemma delete_task_other (ts : list Task) (k : nat) (t t' : Task) :
  NoDup (task_edit_id <$> ts) → ts !! k = Some t → t' ∈ delete k ts →
  t' ∈ ts ∧ task_edit_id t' ≠ task_edit_id t.
Proof.
  intros Hnd Hk Hin. rewrite delete_take_drop in Hin.
  rewrite <- (take_drop_middle ts k t Hk) in Hnd |- *.
  rewrite fmap_app, fmap_cons in Hnd.
  apply NoDup_app in Hnd as (_ & Hdisj & [Hnotin _]%NoDup_cons).
  apply elem_of_app in Hin as [Hin | Hin].
  - split; [set_solver |]. intros Heq.
    apply (Hdisj (task_edit_id t')); [by apply list_elem_of_fmap_2 |].
    rewrite Heq. by left.
  - split; [set_solver |]. intros Heq. apply Hnotin.
    rewrite <- Heq. by apply list_elem_of_fmap_2.
Qed.

Lemma delete_task_nodup (ts : list Task) (k : nat) :
  NoDup (task_edit_id <$> ts) → NoDup (task_edit_id <$> delete k ts).
Proof.
  intros Hnd.
  apply (sublist_NoDup (task_edit_id <$> delete k ts) (task_edit_id <$> ts));
    [done |].
  apply fmap_sublist, sublist_delete.
Qed.

End ServiceFacts.

Section ServiceInvariant.
Context (env : Env).

Lemma Inv_init : Inv env init.
Proof.
  split; cbn.
  - intros t Ht. by apply elem_of_nil in Ht.
  - constructor.
  - intros eid e He. by rewrite lookup_empty in He.
  - intros eid e He. by rewrite lookup_empty in He.
Qed.

(** The invariant only reads the edits, the tasks and the draws. *)
Lemma Inv_frame (w w' : World) :
  edits (db w') = edits (db w) → tasks w' = tasks w →
  (draws w ≤ draws w')%nat → Inv env w → Inv env w'.
Proof.
  intros He Ht Hd [H1 H2 H3 H4].
  split; rewrite ?He, ?Ht; try done.
  intros eid e Hl. destruct (H3 eid e Hl) as (k & Hk & ->).
  exists k. split; [lia | done].
Qed.

Lemma Inv_submit (w : World) (user_id image_id prompt : pystr) :
  Inv env w →
  distinct_draws env (exec env (Submit user_id image_id prompt) w) →
  Inv env (exec env (Submit user_id image_id prompt) w).
Proof.
  intros HI. cbn [exec].
  destruct (get_image user_id image_id (db w)) as [img|] eqn:Hg.
  2:{ by rewrite create_edit_not_found. }
  rewrite (create_edit_found env _ _ _ _ img Hg). cbn [snd Edits.prompt].
  unfold distinct_draws. cbn [draws]. intros Hnd.
  pose proof (next_uuid_fresh env w HI Hnd) as Hfresh.
  destruct HI as [H1 H2 H3 H4].
  split; cbn [db tasks draws edits set_edits].
  - intros t [Ht | ->%list_elem_of_singleton]%elem_of_app.
    + destruct (H1 t Ht) as (e & He & Hq). exists e.
      rewrite lookup_insert_ne; [done |]. intros Heq.
      rewrite <- Heq in He. congruence.
    + cbn [task_edit_id]. rewrite lookup_insert_eq. by eexists.
  - rewrite fmap_app. apply NoDup_app. split; [done |]. split.
    + intros eid [t [-> Ht]]%list_elem_of_fmap.
      destruct (H1 t Ht) as (e & He & _).
      cbn. intros Heq%list_elem_of_singleton. rewrite Heq in He.
      congruence.
    + cbn. apply NoDup_singleton.
  - intros eid e. destruct (decide (uuid4 env (draws w) = eid)) as [<- |Hne].
    + intros _. exists (draws w). split; [lia | done].
    + rewrite lookup_insert_ne by done. intros He.
      destruct (H3 eid e He) as (k & Hk & ->).
      exists k. split; [lia | done].
  - intros eid e. destruct (decide (uuid4 env (draws w) = eid)) as [<- |Hne].
    + rewrite lookup_insert_eq. intros [= <-]. cbn.
      split; [by intros [? [=]] | done].
    + rewrite lookup_insert_ne by done. apply H4.
Qed.

Lemma Inv_run_task (w : World) (k : nat) (ext : Edits.Externals) :
  Inv env w → Inv env (exec env (RunTask k ext) w).
Proof.
  intros HI. cbn [exec].
  destruct (tasks w !! k) as [t|] eqn:Hk; [| done].
  destruct (process_edit_edits env ext (task_user_id t) (task_edit_id t)
              (task_image_path t) (task_prompt t) (set_tasks (delete k) w))
    as (w' & fields & -> & Hedits & Htasks & Hdraws & Hfields).
  cbn [snd]. cbn [db tasks draws ticks set_tasks] in *.
  destruct HI as [H1 H2 H3 H4].
  destruct (H1 t) as (ed & Hed & Hq); [by eapply list_elem_of_lookup_2 |].
  rewrite (update_edit_lookup _ _ _ _ _ Hed) in Hedits.
  assert (e_result_path ed = None) as Hrp.
  { destruct (e_result_path ed) eqn:Hp; [| done].
    assert (e_status ed = completed); [| congruence].
    apply (H4 _ _ Hed). by rewrite Hp. }
  split; rewrite ?Hedits, ?Htasks.
  - intros t' Ht'.
    destruct (delete_task_other _ _ _ _ H2 Hk Ht') as [Hin Hne].
    destruct (H1 t' Hin) as (e & He & Hqe). exists e.
    by rewrite lookup_insert_ne.
  - by apply delete_task_nodup.
  - intros eid e.
    destruct (decide (task_edit_id t = eid)) as [<- |Hne].
    + intros _. destruct (H3 _ _ Hed) as (j & Hj & Hid).
      exists j. split; [lia | done].
    + rewrite lookup_insert_ne by done. intros He.
      destruct (H3 eid e He) as (j & Hj & ->).
      exists j. split; [lia | done].
  - intros eid e.
    destruct (decide (task_edit_id t = eid)) as [<- |Hne].
    + rewrite lookup_insert_eq. intros [= <-].
      destruct Hfields as [[-> _] | [-> _]]; cbn; [done |].
      rewrite Hrp. split; [by intros [? [=]] | done].
    + rewrite lookup_insert_ne by done. apply H4.
Qed.

(** The operations of the collaborators leave the edits and the tasks
    alone. *)
Lemma exec_other_frame (op : Op) (w : World) :
  match op with
  | Submit _ _ _ | RunTask _ _ => True
  | _ =>
      edits (db (exec env op w)) = edits (db w) ∧
      tasks (exec env op w) = tasks w ∧
      (draws w ≤ draws (exec env op w))%nat
  end.
Proof.
  destruct op as [| uid iid | | | |]; try exact I; cbn [exec]; run_m.
  - by destruct (get_image uid iid (db w)).
  - unfold create_image. cbn. repeat split; lia.
  - unfold set_subscription. cbn. repeat split; lia.
  - unfold set_subscription. cbn. repeat split; lia.
Qed.

Lemma exec_draws (op : Op) (w : World) :
  (draws w ≤ draws (exec env op w))%nat.
Proof.
  destruct op as [uid iid pr | uid iid | k ext | uid fn pa mi | uid sid pid
                 | uid sid].
  - cbn [exec].
    destruct (get_image uid iid (db w)) as [img|] eqn:Hg.
    + rewrite (create_edit_found env _ _ _ _ img Hg). cbn. lia.
    + by rewrite create_edit_not_found.
  - by destruct (exec_other_frame (ListEdits uid iid) w) as (_ & _ & ?).
  - cbn [exec]. destruct (tasks w !! k) as [t|]; [| done].
    destruct (process_edit_edits env ext (task_user_id t) (task_edit_id t)
                (task_image_path t) (task_prompt t) (set_tasks (delete k) w))
      as (w' & fields & -> & _ & _ & Hdraws & _). done.
  - by destruct (exec_other_frame (Upload uid fn pa mi) w) as (_ & _ & ?).
  - by destruct (exec_other_frame (SubscriptionCreated uid sid pid) w)
      as (_ & _ & ?).
  - by destruct (exec_other_frame (SubscriptionDeleted uid sid) w)
      as (_ & _ & ?).
Qed.

Lemma Inv_exec (op : Op) (w : World) :
  Inv env w → distinct_draws env (exec env op w) → Inv env (exec env op w).
Proof.
  intros HI Hnd. destruct op.
  - by apply Inv_submit.
  - destruct (exec_other_frame (ListEdits user_id image_id) w) as (? & ? & ?).
    by eapply Inv_frame.
  - by apply Inv_run_task.
  - destruct (exec_other_frame (Upload user_id filename path mime) w)
      as (? & ? & ?). by eapply Inv_frame.
  - destruct (exec_other_frame
                (SubscriptionCreated user_id subscription_id price_id) w)
      as (? & ? & ?). by eapply Inv_frame.
  - destruct (exec_other_frame (SubscriptionDeleted user_id subscription_id) w)
      as (? & ? & ?). by eapply Inv_frame.
Qed.

Lemma run_snoc (ops : list Op) (op : Op) (w : World) :
  run env (ops ++ [op]) w = exec env op (run env ops w).
Proof. unfold run. by rewrite foldl_app. Qed.


(** Every state the service reaches while the UUIDs drawn are pairwise
    different satisfies the invariant. *)
Lemma Inv_run (ops : list Op) (w : World) :
  Inv env w → distinct_draws env (run env ops w) → Inv env (run env ops w).
Proof.
  intros HI. induction ops as [|op ops IH] using rev_ind; [done |].
  rewrite run_snoc. intros Hnd. apply Inv_exec; [| done].
  apply IH. eapply distinct_draws_mono; [| exact Hnd]. apply exec_draws.
Qed.

Lemma Inv_reachable (w : World) :
  reachable env w → distinct_draws env w → Inv env w.
Proof. intros [ops ->]. apply Inv_run, Inv_init. Qed.


End ServiceInvariant.


(** C2. In every state the service reaches (the UUIDs drawn being pairwise
    different), an edit of the store holds a result path exactly when its
    status is [completed]. A pending task is for an edit that is queued with
    no result path; running it leaves the edit completed with the generated
    path when the outside calls succeed, and failed with still no result
    path when one of them raises. *)
Theorem result_path_iff_completed (env : Env) (w : World) :
  reachable env w → distinct_draws env w →
  (∀ eid e, edits (db w) !! eid = Some e →
     (is_Some (e_result_path e) ↔ e_status e = completed)) ∧
  (∀ k t ext, tasks w !! k = Some t →
     ∃ e e',
       edits (db w) !! task_edit_id t = Some e ∧
       e_status e = queued ∧ e_result_path e = None ∧
       edits (db (exec env (RunTask k ext) w)) !! task_edit_id t = Some e' ∧
       match external_failure env ext (task_image_path t) (task_prompt t) w with
       | None => e_status e' = completed ∧
                 e_result_path e' = Some (rel_path_at env w)
       | Some _ => e_status e' = failed ∧ e_result_path e' = None
       end).
Proof.
  intros Hreach Hnd. pose proof (Inv_reachable env w Hreach Hnd) as HI.
  split; [apply (inv_result_path env w HI) |].
  intros k t ext Hk.
  destruct (inv_tasks_queued env w HI t) as (e & He & Hq);
    [by eapply list_elem_of_lookup_2 |].
  assert (e_result_path e = None) as Hrp.
  { destruct (e_result_path e) eqn:Hp; [| done].
    assert (e_status e = completed); [| congruence].
    apply (inv_result_path env w HI _ _ He). by rewrite Hp. }
  cbn [exec]. rewrite Hk.
  destruct (process_edit_edits env ext (task_user_id t) (task_edit_id t)
              (task_image_path t) (task_prompt t) (set_tasks (delete k) w))
    as (w' & fields & -> & Hedits & _ & _ & Hfields).
  cbn [snd]. cbn [db set_tasks ticks] in Hedits.
  rewrite Hedits, (update_edit_lookup _ _ _ _ _ He), lookup_insert_eq.
  exists e. eexists. repeat (split; [done |]).
  change (external_failure env ext (task_image_path t) (task_prompt t)
            (set_tasks (delete k) w))
    with (external_failure env ext (task_image_path t) (task_prompt t) w)
    in Hfields.
  destruct Hfields as [[-> ->] | [-> [x ->]]]; cbn; [done |].
  by rewrite Hrp.
Qed.

(** C6. In a state the service reaches, for an image the user owns,
    [create_edit] returns a record with status [queued] and no result path
    under the UUID it draws, which, being different from the earlier ones,
    is the id of no edit stored before. The record is in the store at once:
    [get_edit] and [list_edits] return it, while the executor has not run:
    its task is pending, the trace has grown by the store write and the
    audit record only, and the other edits are untouched. *)
Theorem submit_creates_queued_edit (env : Env) (w : World)
    (user_id image_id : pystr) (edit : Edits.EditRequest) (img : Image) :
  reachable env w →
  get_image user_id image_id (db w) = Some img →
  distinct_draws env (Edits.create_edit env image_id edit user_id w).2 →
  ∃ resp w',
    Edits.create_edit env image_id edit user_id w = (Ok resp, w') ∧
    Edits.status resp = queued ∧ Edits.result_path resp = None ∧
    Edits.image_id resp = image_id ∧ Edits.r_prompt resp = Edits.prompt edit ∧
    Edits.id resp = uuid4 env (draws w) ∧
    edits (db w) !! Edits.id resp = None ∧
    (∃ ed, get_edit user_id (Edits.id resp) (db w') = Some ed ∧
           Edits.EditResponse_of ed = resp) ∧
    (∃ l, Edits.list_edits image_id user_id w' = (Ok l, w') ∧ resp ∈ l) ∧
    (∀ other, other ≠ Edits.id resp →
       edits (db w') !! other = edits (db w) !! other) ∧
    tasks w' = tasks w ++ [{| task_user_id := user_id;
                              task_edit_id := Edits.id resp;
                              task_image_path := img_path img;
                              task_prompt := Edits.prompt edit |}] ∧
    List.filter (fun ef => is_outside ef || is_sent ef) (effects_since w w')
    = [].
Proof.
  intros Hreach Hg. rewrite (create_edit_found env _ _ _ _ img Hg).
  cbn [snd]. intros Hnd.
  assert (Inv env w) as HI.
  { apply Inv_reachable; [done |].
    eapply distinct_draws_mono; [| exact Hnd]. cbn. lia. }
  pose proof (next_uuid_fresh env w HI Hnd) as Hfresh.
  eexists _, _. split; [reflexivity |].
  cbn [Edits.EditResponse_of Edits.status Edits.result_path Edits.image_id
       Edits.r_prompt Edits.id e_id e_status e_result_path e_image_id
       e_prompt db tasks edits set_edits].
  repeat (split; [done |]).
  split.
  { unfold get_edit. cbn [edits set_edits]. rewrite lookup_insert_eq.
    cbn [e_user_id]. rewrite decide_True by done. by eexists. }
  split.
  { eexists. split.
    - apply (list_edits_found _ _ _ img). cbn [db].
      unfold get_image in *. by cbn [images set_edits].
    - apply list_elem_of_fmap_2'
        with (x := {| e_id := uuid4 env (draws w); e_user_id := user_id;
                      e_image_id := image_id; e_prompt := Edits.prompt edit;
                      e_status := queued; e_result_path := None;
                      e_created_at := utcnow env (ticks w);
                      e_updated_at := utcnow env (S (ticks w)) |});
        [| done].
      unfold list_edits_for_image. apply list_elem_of_filter. split; [done |].
      apply list_elem_of_fmap. eexists (_, _). split; [reflexivity |].
      apply elem_of_map_to_list. cbn [db edits set_edits].
      apply lookup_insert_eq. }
  split; [intros other Hne; by rewrite lookup_insert_ne |].
  split; [done |].
  erewrite effects_since_app by (cbn [log]; reflexivity). done.
Qed.

(** ** The theorems at work on the example service *)

(** A check of [distinct_draws] that computes. *)
Lemma distinct_draws_check (env : Env) (w : World) :
  bool_decide (NoDup (uuid4 env <$> seq 0 (draws w))) = true →
  distinct_draws env w.
Proof. apply bool_decide_eq_true_1. Qed.


(** C2 on the example: the edit completed first holds a result path. *)
Lemma result_path_iff_completed_witness :
  let w := run Example.env (Example.completions 1) Example.uploaded in
  ∃ e, edits (db w) !! Example.uuid 1 = Some e ∧ is_Some (e_result_path e).
Proof.
  intros w.
  assert (reachable Example.env w) as Hreach.
  { exists (Example.upload :: Example.completions 1). reflexivity. }
  assert (distinct_draws Example.env w) as Hnd.
  { apply distinct_draws_check. vm_compute. reflexivity. }
  destruct (result_path_iff_completed Example.env w Hreach Hnd) as [Hiff _].
  assert (∃ e, edits (db w) !! Example.uuid 1 = Some e
               ∧ e_status e = completed) as (e & He & Hst).
  { eexists. split; [vm_compute; reflexivity | reflexivity]. }
  exists e. split; [exact He |]. by apply (Hiff _ _ He).
Defined.

(** C3 (amended) on the example: the eighth completion of a user who never
    subscribed sends the alert, with 2 remaining. *)
Lemma usage_alert_sent_iff_witness :
  let w := run Example.env (Example.completions 7 ++ [Example.submit])
               Example.uploaded in
  ∃ w',
    Edits.process_edit Example.env Example.all_ok Example.alice
      (Example.uuid 15) (lit "storage/uploads/house.jpg") (lit "brighter sky") w
    = (Ok tt, w') ∧
    List.filter is_usage_alert (effects_since w w')
    = [Sent Example.alice usage_alert
         (UsageAlertPayload Edits.usage_alert_message 2)].
Proof.
  intros w.
  destruct (usage_alert_sent_iff Example.env Example.all_ok Example.alice
              (Example.uuid 15) (lit "storage/uploads/house.jpg")
              (lit "brighter sky") w)
    as (w' & Hrun & _ & _ & Hyes & _); [reflexivity |].
  exists w'. split; [exact Hrun |].
  rewrite Hyes; [reflexivity | reflexivity | by vm_compute].
Defined.

(** C3 as stated fails: a user whose subscription was cancelled has no
    active subscription; the eighth completion brings the count to 8, and no
    [usage_alert] is sent. *)
Lemma usage_alert_cancelled_subscription_counterexample :
  let w := run Example.env
               (Example.subscribe_and_cancel ++ Example.completions 7
                  ++ [Example.submit]) Example.uploaded in
  let w' := exec Example.env (RunTask 0 Example.all_ok) w in
  has_active_subscription Example.alice (db w) = false ∧
  e_status <$> edits (db w') !! Example.uuid 15 = Some completed ∧
  get_usage Example.alice (db w') !! lit "edits_completed" = Some 8 ∧
  List.filter is_usage_alert (effects_since w w') = [].
Proof. by vm_compute. Qed.


(** C4 at its failing input: a user who never subscribed completes an
    eleventh edit. The alert sent then carries [remaining = -1], while the
    status operation reports 0 for the same user. *)
Lemma usage_alert_remaining_negative :
  let w := run Example.env (Example.completions 10 ++ [Example.submit])
               Example.uploaded in
  let w' := exec Example.env (RunTask 0 Example.all_ok) w in
  get_subscription Example.alice (db w) = None ∧
  get_usage Example.alice (db w') !! lit "edits_completed" = Some 11 ∧
  List.filter is_usage_alert (effects_since w w')
  = [Sent Example.alice usage_alert
       (UsageAlertPayload Edits.usage_alert_message (-1))] ∧
  (Subscriptions.get_subscription_status (E := False) Example.alice w').1
  = Ok {| Subscriptions.plan := None;
          Subscriptions.status := lit "trial";
          Subscriptions.trial_remaining := Some 0 |}.
Proof. by vm_compute. Qed.

(** C5 on the example: the enhancement service answers with an error. *)
Lemma failure_path_marks_failed_witness :
  ∃ w',
    Edits.process_edit Example.env Example.post_fails Example.alice
      (Example.uuid 1) (lit "storage/uploads/house.jpg") (lit "brighter sky")
      Example.submitted
    = (Ok tt, w') ∧
    e_status <$> edits (db w') !! Example.uuid 1 = Some failed ∧
    List.filter is_sent (effects_since Example.submitted w')
    = [Sent Example.alice edit_status
         (EditStatusPayload (Example.uuid 1) failed None
            (Some (Edits.str_e Example.server_error)))].
Proof.
  edestruct (failure_path_marks_failed Example.env Example.post_fails
               Example.alice (Example.uuid 1) (lit "storage/uploads/house.jpg")
               (lit "brighter sky") Example.submitted Example.server_error)
    as (w' & Hrun & (ed' & Hed' & Hst & _) & _ & Hsent & _).
  - reflexivity.
  - vm_compute. reflexivity.
  - exists w'. split; [exact Hrun |]. split; [| exact Hsent].
    rewrite Hed'. cbn. by rewrite Hst.
Defined.

(** C6 on the example: Alice requests an edit of her image. *)
Lemma submit_creates_queued_edit_witness :
  ∃ resp w',
    Edits.create_edit Example.env Example.house Example.brighter Example.alice
      Example.uploaded
    = (Ok resp, w') ∧
    Edits.status resp = queued ∧ Edits.id resp = Example.uuid 1.
Proof.
  edestruct (submit_creates_queued_edit Example.env Example.uploaded
               Example.alice Example.house Example.brighter)
    as (resp & w' & Hrun & Hst & _ & _ & _ & Hid & _).
  - exists [Example.upload]. reflexivity.
  - vm_compute. reflexivity.
  - apply distinct_draws_check. vm_compute. reflexivity.
  - exists resp, w'. by repeat split.
Defined.

(** C7 on the example: Bob asks for an edit of Alice's image. *)
Lemma image_not_owned_not_found_witness :
  (Edits.create_edit Example.env Example.house Example.brighter Example.bob
     Example.uploaded).2
  = Example.uploaded.
Proof.
  destruct (image_not_owned_not_found Example.env Example.uploaded
              Example.bob Example.house Example.brighter) as [Hc _].
  - right. eexists. split; [vm_compute; reflexivity |]. by vm_compute.
  - by rewrite Hc.
Defined.

(** C8 on the example: a run that completes the submitted edit. *)
Lemma store_write_precedes_notification_witness :
  ∃ w' st d,
    Edits.process_edit Example.env Example.all_ok Example.alice
      (Example.uuid 1) (lit "storage/uploads/house.jpg") (lit "brighter sky")
      Example.submitted
    = (Ok tt, w') ∧
    (st = completed ∨ st = failed) ∧
    e_status <$> edits d !! Example.uuid 1 = Some st ∧
    edits (db w') = edits d.
Proof.
  edestruct (store_write_precedes_notification Example.env Example.all_ok
               Example.alice (Example.uuid 1) (lit "storage/uploads/house.jpg")
               (lit "brighter sky") Example.submitted)
    as (w' & before & after & st & rp & prp & err & d & Hrun & _ & _ & _
        & (ed' & Hed' & Hst & _) & Hcase & Hfinal).
  - vm_compute. reflexivity.
  - exists w', st, d. split; [exact Hrun |].
    split; [destruct Hcase as [(-> & _) | (-> & _)]; [by left | by right] |].
    split; [| exact Hfinal]. rewrite Hed'. cbn. by rewrite Hst.
Defined.

(** * Further properties of the store and of the path helpers *)

Section StoreFacts.

Lemma get_edit_Some (user_id edit_id : pystr) (d : InMemoryDB) (e : Edit) :
  get_edit user_id edit_id d = Some e ↔
  edits d !! edit_id = Some e ∧ e_user_id e = user_id.
Proof.
  unfold get_edit. destruct (edits d !! edit_id) as [ed|].
  - case_decide as Hu; split.
    + by intros [= ->].
    + by intros [[= ->] _].
    + done.
    + intros [[= ->] ?]. done.
  - split; [done | by intros [? _]].
Qed.

Lemma get_image_Some (user_id image_id : pystr) (d : InMemoryDB) (i : Image) :
  get_image user_id image_id d = Some i ↔
  images d !! image_id = Some i ∧ img_user_id i = user_id.
Proof.
  unfold get_image. destruct (images d !! image_id) as [img|].
  - case_decide as Hu; split.
    + by intros [= ->].
    + by intros [[= ->] _].
    + done.
    + intros [[= ->] ?]. done.
  - split; [done | by intros [? _]].
Qed.

Lemma elem_of_list_edits_for_image (user_id image_id : pystr) (d : InMemoryDB)
    (e : Edit) :
  e ∈ list_edits_for_image user_id image_id d ↔
  (∃ eid, edits d !! eid = Some e) ∧ e_user_id e = user_id
  ∧ e_image_id e = image_id.
Proof.
  unfold list_edits_for_image.
  rewrite list_elem_of_filter, list_elem_of_fmap. split.
  - intros [[Hu Hi] ([eid e'] & -> & Hin%elem_of_map_to_list)]. eauto.
  - intros ([eid He] & Hu & Hi). split; [done |].
    exists (eid, e). split; [done |]. by apply elem_of_map_to_list.
Qed.

Lemma elem_of_list_images (user_id : pystr) (d : InMemoryDB) (i : Image) :
  i ∈ list_images user_id d ↔
  (∃ iid, images d !! iid = Some i) ∧ img_user_id i = user_id.
Proof.
  unfold list_images.
  rewrite list_elem_of_filter, list_elem_of_fmap. split.
  - intros [Hu ([iid i'] & -> & Hin%elem_of_map_to_list)]. eauto.
  - intros ([iid Hi] & Hu). split; [done |].
    exists (iid, i). split; [done |]. by apply elem_of_map_to_list.
Qed.

End StoreFacts.

(** X1. [create_edit] followed by [get_edit]: the owner reads back the
    record just created, any other user reads nothing under that id, the
    record is listed for its image, every other id reads as before, and the
    images, subscriptions and usage counters are untouched. *)
Theorem create_edit_then_get_edit (d : InMemoryDB)
    (u now1 now2 user_id image_id prompt : pystr) :
  let rec := (DB.create_edit u now1 now2 user_id image_id prompt d).1 in
  let d' := (DB.create_edit u now1 now2 user_id image_id prompt d).2 in
  get_edit user_id u d' = Some rec ∧
  e_status rec = queued ∧ e_result_path rec = None ∧
  (∀ other, other ≠ user_id → get_edit other u d' = None) ∧
  rec ∈ list_edits_for_image user_id image_id d' ∧
  (∀ v eid, eid ≠ u → get_edit v eid d' = get_edit v eid d) ∧
  images d' = images d ∧ subscriptions d' = subscriptions d ∧
  usage d' = usage d.
Proof.
  cbn zeta. unfold DB.create_edit. cbn [fst snd].
  split.
  { apply get_edit_Some. cbn [edits set_edits].
    by rewrite lookup_insert_eq. }
  split; [done |]. split; [done |].
  split.
  { intros other Hne. unfold get_edit. cbn [edits set_edits].
    rewrite lookup_insert_eq. cbn [e_user_id]. by rewrite decide_False. }
  split.
  { apply elem_of_list_edits_for_image. split; [| done].
    exists u. cbn [edits set_edits]. by rewrite lookup_insert_eq. }
  split; [| done].
  intros v eid Hne. unfold get_edit. cbn [edits set_edits].
  by rewrite lookup_insert_ne.
Qed.



(** X3. The edits listed for a user and an image are exactly the records
    that [get_edit] returns to that user and that belong to the image: no
    edit of another user, or of another image, is ever listed, and none of
    the user's edits of the image is missing. *)
Theorem list_edits_for_image_get_edit (d : InMemoryDB)
    (user_id image_id : pystr) (e : Edit) :
  e ∈ list_edits_for_image user_id image_id d ↔
  ∃ eid, get_edit user_id eid d = Some e ∧ e_image_id e = image_id.
Proof.
  rewrite elem_of_list_edits_for_image. split.
  - intros ([eid He] & Hu & Hi). exists eid. by rewrite get_edit_Some.
  - intros (eid & [He Hu]%get_edit_Some & Hi). eauto.
Qed.

(** X4. [create_image] followed by [get_image]: the uploader reads back the
    record just created, with status "uploaded"; any other user reads
    nothing under that id; every other id reads as before; edits,
    subscriptions and usage counters are untouched. *)
Theorem create_image_then_get_image (d : InMemoryDB)
    (u now user_id filename path mime : pystr) :
  let rec := (DB.create_image u now user_id filename path mime d).1 in
  let d' := (DB.create_image u now user_id filename path mime d).2 in
  get_image user_id u d' = Some rec ∧
  img_path rec = path ∧ img_status rec = lit "uploaded" ∧
  (∀ other, other ≠ user_id → get_image other u d' = None) ∧
  rec ∈ list_images user_id d' ∧
  (∀ v iid, iid ≠ u → get_image v iid d' = get_image v iid d) ∧
  edits d' = edits d ∧ subscriptions d' = subscriptions d ∧
  usage d' = usage d.
Proof.
  cbn zeta. unfold DB.create_image. cbn [fst snd].
  split.
  { apply get_image_Some. cbn [images set_images].
    by rewrite lookup_insert_eq. }
  split; [done |]. split; [done |].
  split.
  { intros other Hne. unfold get_image. cbn [images set_images].
    rewrite lookup_insert_eq. cbn [img_user_id]. by rewrite decide_False. }
  split.
  { apply elem_of_list_images. split; [| done].
    exists u. cbn [images set_images]. by rewrite lookup_insert_eq. }
  split; [| done].
  intros v iid Hne. unfold get_image. cbn [images set_images].
  by rewrite lookup_insert_ne.
Qed.

(** X5. The images listed for a user are exactly the records [get_image]
    returns to that user: a user never sees an image of another user. *)
Theorem list_images_get_image (d : InMemoryDB) (user_id : pystr) (i : Image) :
  i ∈ list_images user_id d ↔ ∃ iid, get_image user_id iid d = Some i.
Proof.
  rewrite elem_of_list_images. split.
  - intros ([iid Hi] & Hu). exists iid. by rewrite get_image_Some.
  - intros (iid & [Hi Hu]%get_image_Some). eauto.
Qed.

(** X6. [set_subscription] keeps one record per user: [get_subscription]
    returns the record last written for the user, a second write replaces
    the first altogether, and the records of other users, like the images,
    edits and usage counters, are untouched. *)
Theorem set_subscription_last_write_wins (d : InMemoryDB) (user_id : pystr)
    (plan1 plan2 : option pystr) (status1 status2 : pystr) :
  let d1 := (DB.set_subscription user_id plan1 status1 d).2 in
  let d2 := (DB.set_subscription user_id plan2 status2 d1).2 in
  get_subscription user_id d1
  = Some {| sub_user_id := user_id; sub_plan := plan1;
            sub_status := status1 |} ∧
  d2 = (DB.set_subscription user_id plan2 status2 d).2 ∧
  (∀ other, other ≠ user_id →
     get_subscription other d1 = get_subscription other d) ∧
  images d1 = images d ∧ edits d1 = edits d ∧ usage d1 = usage d.
Proof.
  cbn zeta. unfold DB.set_subscription, get_subscription. cbn [fst snd].
  cbn [subscriptions set_subscriptions].
  split; [by rewrite lookup_insert_eq |].
  split.
  { unfold set_subscriptions. cbn. by rewrite insert_insert_eq. }
  split; [| done]. intros other Hne. by rewrite lookup_insert_ne.
Qed.

(** The store an increment leaves. *)
Lemma increment_usage_store (d : InMemoryDB) (user_id metric : pystr) (a : Z) :
  (increment_usage user_id metric a d).2
  = set_usage
      (insert user_id
         (<[metric := default 0 (get_usage user_id d !! metric) + a]>
            (get_usage user_id d))) d.
Proof.
  unfold increment_usage, get_usage.
  destruct (usage d !! user_id) as [per_user|] eqn:Hu; store_simpl.
  - by rewrite Hu.
  - rewrite lookup_insert_eq. store_simpl.
    unfold set_usage; cbn. by rewrite insert_insert_eq.
Qed.

Lemma increment_usage_pair (d : InMemoryDB) (user_id metric : pystr) (a : Z) :
  increment_usage user_id metric a d
  = (default 0 (get_usage user_id d !! metric) + a,
     (increment_usage user_id metric a d).2).
Proof.
  rewrite <- increment_usage_total. by destruct (increment_usage _ _ _ _).
Qed.

(** X7. Increments add up and commute: two increments of one counter leave
    the store that a single increment by the sum leaves, and the second
    returns the old value plus both amounts; increments of two different
    counters do not see each other and leave the same store in either
    order. *)
Theorem increment_usage_adds_up (d : InMemoryDB) (user_id metric : pystr)
    (a b : Z) :
  increment_usage user_id metric b (increment_usage user_id metric a d).2
  = increment_usage user_id metric (a + b) d ∧
  (∀ user_id' metric',
     (user_id', metric') ≠ (user_id, metric) →
     (increment_usage user_id' metric' b
        (increment_usage user_id metric a d).2).1
     = (increment_usage user_id' metric' b d).1 ∧
     (increment_usage user_id' metric' b
        (increment_usage user_id metric a d).2).2
     = (increment_usage user_id metric a
          (increment_usage user_id' metric' b d).2).2).
Proof.
  split.
  - rewrite (increment_usage_pair _ user_id metric b),
      (increment_usage_pair d user_id metric (a + b)).
    rewrite get_usage_increment_usage_same, lookup_insert_eq.
    rewrite (increment_usage_store (increment_usage user_id metric a d).2).
    rewrite get_usage_increment_usage_same, lookup_insert_eq.
    rewrite !increment_usage_store.
    f_equal; [cbn; lia |].
    unfold set_usage; cbn. rewrite !insert_insert_eq. cbn.
    do 3 f_equal. lia.
  - intros u' m' Hne. rewrite !increment_usage_total.
    rewrite (increment_usage_store (increment_usage user_id metric a d).2),
      (increment_usage_store (increment_usage u' m' b d).2).
    destruct (decide (u' = user_id)) as [-> | Hu].
    + assert (m' ≠ metric) as Hm by congruence.
      rewrite !get_usage_increment_usage_same.
      rewrite !increment_usage_store.
      rewrite lookup_insert_ne by done. split; [done |].
      unfold set_usage; cbn. rewrite !insert_insert_eq.
      rewrite (lookup_insert_ne _ m' metric) by done.
      f_equal. f_equal. by apply insert_insert_ne.
    + rewrite !get_usage_increment_usage_other by done.
      rewrite !increment_usage_store.
      split; [done |].
      unfold set_usage; cbn. f_equal. by apply insert_insert_ne.
Qed.

Module PathFacts.
Import Storage.

(** A text either holds no slash or splits at its last one. *)
Lemma last_slash_split (f : pystr) :
  slash ∉ f ∨ ∃ g h, f = g ++ slash :: h ∧ slash ∉ h.
Proof.
  induction f as [|c f IH]; [left; by intros ?%elem_of_nil |].
  destruct IH as [Hno | (g & h & -> & Hh)].
  - destruct (decide (c = slash)) as [-> | Hc].
    + right. by exists [], f.
    + left. by intros [? | ?]%elem_of_cons.
  - right. by exists (c :: g), h.
Qed.

(** The base name ignores everything up to a slash. *)
Lemma basename_drop_dir (a f : pystr) :
  basename (a ++ slash :: f) = basename f.
Proof.
  destruct (last_slash_split f) as [Hno | (g & h & -> & Hh)].
  - by rewrite StorageFacts.basename_after_slash,
      StorageFacts.basename_no_slash.
  - rewrite (StorageFacts.basename_after_slash g h Hh).
    replace (a ++ slash :: g ++ slash :: h)
      with ((a ++ slash :: g) ++ slash :: h) by by rewrite <- app_assoc.
    by apply StorageFacts.basename_after_slash.
Qed.

Lemma basename_slash_free (p : pystr) : slash ∉ basename p.
Proof.
  destruct (last_slash_split p) as [Hno | (g & h & -> & Hh)].
  - by rewrite StorageFacts.basename_no_slash.
  - by rewrite StorageFacts.basename_after_slash.
Qed.

Lemma basename_nil_iff (p : pystr) :
  basename p = [] ↔ p = [] ∨ endswith slash p = true.
Proof.
  destruct (last_slash_split p) as [Hno | (g & h & -> & Hh)].
  - rewrite StorageFacts.basename_no_slash by done. split; [by left |].
    intros [-> | He]; [done |].
    apply StorageFacts.endswith_last in He as [a ->].
    exfalso. apply Hno. apply elem_of_app. right. by left.
  - rewrite StorageFacts.basename_after_slash by done. split.
    + intros ->. right. unfold endswith. rewrite last_snoc.
      by rewrite N.eqb_refl.
    + intros [Hnil | He]; [by destruct g |].
      apply StorageFacts.endswith_last in He as [a Ha].
      destruct h as [|c h _] using rev_ind; [done |].
      exfalso. apply Hh.
      rewrite app_comm_cons, app_assoc in Ha.
      apply app_inj_tail in Ha as [_ ->].
      apply elem_of_app. right. by left.
Qed.

Lemma sanitize_idemp (c : N) : sanitize (sanitize c) = sanitize c.
Proof.
  unfold sanitize at 1. by rewrite StorageFacts.sanitize_in_class.
Qed.

Lemma sanitize_fixed (s : pystr) :
  Forall (fun c => in_class c = true) s → sanitize <$> s = s.
Proof.
  induction 1 as [|c s Hc _ IH]; [done |].
  rewrite fmap_cons, IH. unfold sanitize. by rewrite Hc.
Qed.

Lemma safe_filename_fixed (s : pystr) :
  Forall (fun c => in_class c = true) s → (length s ≤ 100)%nat →
  safe_filename s = s.
Proof.
  intros Hs Hlen. rewrite StorageFacts.safe_filename_map.
  rewrite StorageFacts.basename_no_slash
    by by apply StorageFacts.in_class_no_slash.
  rewrite sanitize_fixed by done. by apply take_ge.
Qed.

End PathFacts.

(** X8. [generate_upload_path] confines any client-supplied file name to the
    upload directory: the path is the directory, a separator when needed,
    and one file name without a slash, made of the UUID, an underscore and
    the sanitized name, all in [A-Za-z0-9._-] and at most 137 characters
    long. Directory parts of the supplied name play no role, so a name such
    as "../../x" gives the path that "x" gives, and different UUIDs give
    different paths. *)
Theorem generate_upload_path_confined (dir u filename : pystr) :
  Storage.is_uuid_str u = true →
  let name := u ++ underscore :: Storage.safe_filename filename in
  let abs_path := (Storage.generate_upload_path dir u filename).1 in
  let rel := (Storage.generate_upload_path dir u filename).2 in
  abs_path = rel ∧
  (∃ sep, rel = dir ++ sep ++ name ∧
          (sep = [slash] ∨
           sep = [] ∧ (dir = [] ∨ Storage.endswith slash dir = true))) ∧
  Storage.basename rel = name ∧
  Forall (fun c => Storage.in_class c = true) name ∧
  (length name ≤ 137)%nat ∧
  (∀ d f, Storage.generate_upload_path dir u (d ++ slash :: f)
          = Storage.generate_upload_path dir u f) ∧
  (∀ u' filename', Storage.is_uuid_str u' = true → u' ≠ u →
     Storage.generate_upload_path dir u' filename'
     ≠ Storage.generate_upload_path dir u filename).
Proof.
  intros Hu name abs_path rel.
  pose proof (StorageFacts.unique_name_no_slash u filename Hu) as Hns.
  destruct (StorageFacts.path_join_relative dir name) as (sep & Hrel & Hsep).
  { by apply StorageFacts.unique_name_relative. }
  split; [done |]. split; [by exists sep |].
  split.
  { subst rel. cbn [Storage.generate_upload_path snd]. fold name.
    rewrite Hrel. destruct Hsep as [-> | [-> [-> | He]]].
    - cbn [app]. by apply StorageFacts.basename_after_slash.
    - cbn [app]. by apply StorageFacts.basename_no_slash.
    - apply StorageFacts.endswith_last in He as [d' ->].
      cbn [app]. rewrite <- app_assoc. cbn [app].
      by apply StorageFacts.basename_after_slash. }
  split.
  { apply Forall_app. split; [by apply StorageFacts.is_uuid_str_in_class |].
    constructor; [done | apply StorageFacts.safe_filename_in_class]. }
  split.
  { subst name. rewrite length_app, (StorageFacts.is_uuid_str_length u Hu).
    cbn [length]. pose proof (StorageFacts.safe_filename_length filename).
    lia. }
  split.
  { intros d f. unfold Storage.generate_upload_path, Storage.safe_filename.
    by rewrite PathFacts.basename_drop_dir. }
  intros u' filename' Hu' Hne Heq. apply Hne.
  unfold Storage.generate_upload_path in Heq.
  apply (f_equal snd) in Heq. cbn [snd] in Heq.
  unfold Storage.path_join in Heq.
  rewrite !StorageFacts.unique_name_relative in Heq by done.
  assert (u' ++ underscore :: Storage.safe_filename filename'
          = u ++ underscore :: Storage.safe_filename filename) as Happ.
  { destruct (_ || _); simplify_list_eq; done. }
  apply app_inj_1 in Happ as [? _]; [done |].
  by rewrite !StorageFacts.is_uuid_str_length.
Qed.

(** X8 on a name that tries to leave the upload directory. *)
Lemma generate_upload_path_confined_witness :
  let u := lit "123e4567-e89b-42d3-a456-426614174000" in
  Storage.is_uuid_str u = true ∧
  (Storage.generate_upload_path (lit "storage/uploads") u
     (lit "../../etc/pass wd")).2
  = lit "storage/uploads/" ++ u ++ lit "_pass_wd".
Proof.
  intros u.
  assert (Storage.is_uuid_str u = true) as Hu by reflexivity.
  destruct (generate_upload_path_confined (lit "storage/uploads") u
              (lit "../../etc/pass wd") Hu) as (_ & _ & _ & _ & _ & Hd & _).
  split; [exact Hu |].
  change (lit "../../etc/pass wd") with (lit "../../etc" ++ slash :: lit "pass wd").
  rewrite Hd. reflexivity.
Defined.

(** X9. [safe_filename] is idempotent, and it returns unchanged every name
    of at most 100 characters that is made of [A-Za-z0-9._-] only. *)
Theorem safe_filename_idempotent (original : pystr) :
  Storage.safe_filename (Storage.safe_filename original)
  = Storage.safe_filename original ∧
  (∀ s, Forall (fun c => Storage.in_class c = true) s →
        (length s ≤ 100)%nat → Storage.safe_filename s = s).
Proof.
  split; [| apply PathFacts.safe_filename_fixed].
  apply PathFacts.safe_filename_fixed.
  - apply StorageFacts.safe_filename_in_class.
  - apply StorageFacts.safe_filename_length.
Qed.

(** X10. The name [safe_filename] returns is as long as the base name of its
    argument, up to 100 characters, and holds no slash; it is empty exactly
    when the argument is empty or ends with a slash; and it depends on the
    part after the last slash only. *)
Theorem safe_filename_base_name_only (original : pystr) :
  length (Storage.safe_filename original)
  = (length (Storage.basename original) `min` 100)%nat ∧
  (slash ∉ Storage.safe_filename original) ∧
  (Storage.safe_filename original = [] ↔
   original = [] ∨ Storage.endswith slash original = true) ∧
  (∀ d, Storage.safe_filename (d ++ slash :: original)
        = Storage.safe_filename original).
Proof.
  split.
  { rewrite StorageFacts.safe_filename_map, length_take, length_fmap. lia. }
  split.
  { apply StorageFacts.in_class_no_slash,
      StorageFacts.safe_filename_in_class. }
  split.
  { rewrite <- PathFacts.basename_nil_iff.
    rewrite StorageFacts.safe_filename_map.
    destruct (Storage.basename original) as [|c b]; [done |].
    split; [by intros [=] | done]. }
  intros d. unfold Storage.safe_filename.
  by rewrite PathFacts.basename_drop_dir.
Qed.

(** ** The CORS origins (main.py) *)

Module MainFacts.
Import Main.

Lemma lstrip_spec (s : pystr) :
  ∃ pre, s = pre ++ lstrip s ∧ Forall (fun c => isspace c = true) pre ∧
         match lstrip s with
         | c :: _ => isspace c = false
         | [] => True
         end.
Proof.
  induction s as [|c s (pre & Hs & Hpre & Hhd)]; [by exists [] |].
  cbn [lstrip]. destruct (isspace c) eqn:Hc.
  - exists (c :: pre). split; [by rewrite Hs at 1 |]. split; [| done].
    by constructor.
  - by exists [].
Qed.

Lemma lstrip_fixed (s : pystr) :
  match s with
  | c :: _ => isspace c = false
  | [] => True
  end → lstrip s = s.
Proof. destruct s as [|c s]; [done |]. cbn. by intros ->. Qed.

Lemma lstrip_all_space (s : pystr) :
  Forall (fun c => isspace c = true) s → lstrip s = [].
Proof. induction 1 as [|c s Hc _ IH]; [done |]. cbn. by rewrite Hc. Qed.

Lemma rstrip_spec (s : pystr) :
  ∃ post, s = rstrip s ++ post ∧ Forall (fun c => isspace c = true) post ∧
          match last (rstrip s) with
          | Some c => isspace c = false
          | None => True
          end.
Proof.
  unfold rstrip.
  destruct (lstrip_spec (reverse s)) as (pre & Hs & Hpre & Hhd).
  exists (reverse pre). split.
  { rewrite <- reverse_app, <- Hs. by rewrite reverse_involutive. }
  split; [by apply Forall_reverse |].
  destruct (lstrip (reverse s)) as [|c r]; [done |].
  by rewrite reverse_cons, last_snoc.
Qed.

Lemma rstrip_fixed (s : pystr) :
  match last s with
  | Some c => isspace c = false
  | None => True
  end → rstrip s = s.
Proof.
  intros Hl. unfold rstrip. rewrite lstrip_fixed; [apply reverse_involutive |].
  destruct s as [|c s _] using rev_ind; [done |].
  rewrite reverse_snoc. by rewrite last_snoc in Hl.
Qed.

(** What [strip] leaves: whitespace cut from both ends, and neither end of
    the rest is whitespace. *)
Lemma strip_spec (s : pystr) :
  ∃ pre post,
    s = pre ++ strip s ++ post ∧
    Forall (fun c => isspace c = true) pre ∧
    Forall (fun c => isspace c = true) post ∧
    match strip s with
    | c :: _ => isspace c = false
    | [] => True
    end ∧
    match last (strip s) with
    | Some c => isspace c = false
    | None => True
    end.
Proof.
  unfold strip.
  destruct (lstrip_spec s) as (pre & Hs & Hpre & Hhd).
  destruct (rstrip_spec (lstrip s)) as (post & Hl & Hpost & Hlast).
  exists pre, post. split; [by rewrite <- Hl |].
  do 2 (split; [done |]). split; [| done].
  destruct (rstrip (lstrip s)) as [|c r] eqn:Hr; [done |].
  rewrite Hl in Hhd. exact Hhd.
Qed.

Lemma strip_fixed (s : pystr) :
  match s with
  | c :: _ => isspace c = false
  | [] => True
  end →
  match last s with
  | Some c => isspace c = false
  | None => True
  end → strip s = s.
Proof.
  intros Hhd Hl. unfold strip. rewrite lstrip_fixed by done.
  by apply rstrip_fixed.
Qed.

Lemma strip_idemp (s : pystr) : strip (strip s) = strip s.
Proof.
  destruct (strip_spec s) as (_ & _ & _ & _ & _ & Hhd & Hl).
  by apply strip_fixed.
Qed.

Lemma strip_all_space (s : pystr) :
  Forall (fun c => isspace c = true) s → strip s = [].
Proof. intros Hs. unfold strip. by rewrite lstrip_all_space. Qed.

Lemma strip_no_comma (s : pystr) : comma ∉ s → comma ∉ strip s.
Proof.
  intros Hs Hin. destruct (strip_spec s) as (pre & post & Heq & _).
  apply Hs. rewrite Heq. apply elem_of_app. right.
  apply elem_of_app. by left.
Qed.

Lemma split_nonempty (sep : N) (s : pystr) : split sep s ≠ [].
Proof.
  destruct s as [|c s]; [done |]. cbn.
  destruct (c =? sep)%N; [done |]. by destruct (split sep s).
Qed.

Lemma split_no_sep (sep : N) (s : pystr) :
  Forall (fun piece => sep ∉ piece) (split sep s).
Proof.
  induction s as [|c s IH]; cbn.
  { constructor; [by intros ?%elem_of_nil | constructor]. }
  destruct (N.eqb_spec c sep) as [-> | Hne].
  - constructor; [by intros ?%elem_of_nil | done].
  - destruct (split sep s) as [|piece rest]; [| inversion IH; subst].
    + constructor; [| constructor].
      intros [? | ?%elem_of_nil]%elem_of_cons; congruence.
    + constructor; [| done].
      intros [? | ?]%elem_of_cons; [congruence | done].
Qed.

(** The pieces of a text made of separators and whitespace are blank. *)
Lemma split_blank (s : pystr) :
  Forall (fun c => isspace c = true ∨ c = comma) s →
  Forall (Forall (fun c => isspace c = true)) (split comma s).
Proof.
  induction 1 as [|c s Hc _ IH]; cbn; [by repeat constructor |].
  destruct (N.eqb_spec c comma) as [-> | Hne].
  - by constructor.
  - destruct Hc as [Hc | ->]; [| done].
    destruct (split comma s) as [|piece rest]; [by repeat constructor |].
    inversion IH; subst. constructor; [by constructor | done].
Qed.

Lemma split_piece (sep : N) (x : pystr) :
  sep ∉ x → split sep x = [x].
Proof.
  induction x as [|c x IH]; [done |]. intros Hx. cbn.
  destruct (N.eqb_spec c sep) as [-> | Hne]; [exfalso; apply Hx; by left |].
  rewrite IH; [done |]. intros ?. apply Hx. by right.
Qed.

Lemma split_app (sep : N) (x rest : pystr) :
  sep ∉ x → split sep (x ++ sep :: rest) = x :: split sep rest.
Proof.
  induction x as [|c x IH]; intros Hx.
  - cbn. by rewrite N.eqb_refl.
  - cbn [app split].
    destruct (N.eqb_spec c sep) as [-> | Hne]; [exfalso; apply Hx; by left |].
    rewrite IH; [done |]. intros ?. apply Hx. by right.
Qed.

Lemma split_join (sep : N) (l : list pystr) :
  l ≠ [] → Forall (fun piece => sep ∉ piece) l → split sep (join sep l) = l.
Proof.
  intros Hne Hl. induction Hl as [|x l Hx Hl IH]; [done |].
  destruct l as [|y l]; [by apply split_piece |].
  change (join sep (x :: y :: l)) with (x ++ sep :: join sep (y :: l)).
  rewrite split_app by done. by rewrite IH.
Qed.

Lemma origins_well_formed (pieces : list pystr) :
  Forall (fun piece => comma ∉ piece) pieces →
  Forall well_formed
    (strip <$> filter (fun origin => strip origin ≠ []) pieces).
Proof.
  induction 1 as [|p pieces Hp _ IH]; [constructor |].
  rewrite filter_cons. case_decide as Hs; [| done].
  rewrite fmap_cons. constructor; [| done].
  split; [done |]. split; [by apply strip_no_comma | apply strip_idemp].
Qed.

Lemma allow_origins_canonical (l : list pystr) :
  l ≠ [] → Forall well_formed l → allow_origins (join comma l) = l.
Proof.
  intros Hne Hl. unfold allow_origins.
  rewrite split_join;
    [| done | eapply Forall_impl; [exact Hl | by intros o (_ & ? & _)]].
  assert (strip <$> filter (fun origin => strip origin ≠ []) l = l) as ->.
  { clear Hne. induction Hl as [|o l (Ho & _ & Hs) _ IH]; [done |].
    rewrite filter_cons, decide_True by by rewrite Hs.
    by rewrite fmap_cons, Hs, IH. }
  by destruct l.
Qed.

Lemma allow_origins_well_formed (s : pystr) :
  allow_origins s ≠ [] ∧ Forall well_formed (allow_origins s).
Proof.
  unfold allow_origins.
  pose proof (origins_well_formed _ (split_no_sep comma s)) as Hwf.
  destruct (strip <$> filter _ (split comma s)) as [|o l]; [| done].
  split; [done |]. constructor; [| constructor].
  split; [done |]. split; [| done].
  intros [? | ?%elem_of_nil]%elem_of_cons; done.
Qed.

(** A check of the canonical form that computes. *)
Lemma canonical_check (o : pystr) :
  bool_decide (o ≠ [] ∧ (comma ∉ o) ∧ strip o = o) = true →
  o ≠ [] ∧ (comma ∉ o) ∧ strip o = o.
Proof. apply bool_decide_eq_true_1. Qed.

End MainFacts.

(** X11. The list of allowed origins is never empty, and every origin in it
    is a non-empty text without a comma and without whitespace at its ends
    (stripping it again changes nothing). A setting made of commas and
    whitespace only, the empty setting included, gives the single origin
    "*". *)
Theorem allow_origins_never_empty (CORS_ALLOW_ORIGINS : pystr) :
  Main.allow_origins CORS_ALLOW_ORIGINS ≠ [] ∧
  Forall (fun o => o ≠ [] ∧ (Main.comma ∉ o) ∧ Main.strip o = o ∧
                   match o with
                   | c :: _ => Main.isspace c = false
                   | [] => False
                   end)
         (Main.allow_origins CORS_ALLOW_ORIGINS) ∧
  (Forall (fun c => Main.isspace c = true ∨ c = Main.comma)
          CORS_ALLOW_ORIGINS →
   Main.allow_origins CORS_ALLOW_ORIGINS = [[Main.star]]).
Proof.
  destruct (MainFacts.allow_origins_well_formed CORS_ALLOW_ORIGINS)
    as [Hne Hwf].
  split; [done |]. split.
  - eapply Forall_impl; [exact Hwf |].
    intros o (Ho & Hc & Hs). repeat (split; [done |]).
    destruct (MainFacts.strip_spec o) as (_ & _ & _ & _ & _ & Hhd & _).
    rewrite Hs in Hhd. by destruct o.
  - intros Hblank. unfold Main.allow_origins.
    assert (filter (fun origin => Main.strip origin ≠ [])
              (Main.split Main.comma CORS_ALLOW_ORIGINS) = []) as ->; [| done].
    pose proof (MainFacts.split_blank _ Hblank) as Hpieces.
    induction Hpieces as [|p pieces Hp _ IH]; [done |].
    rewrite filter_cons, decide_False; [done |].
    intros Hs. apply Hs. by apply MainFacts.strip_all_space.
Qed.

(** X12. A list of origins in canonical form, written with commas between
    them, is read back as it is; in particular reading the written form of
    what [allow_origins] returned returns the same list. *)
Theorem allow_origins_round_trip (l : list pystr) :
  l ≠ [] →
  Forall (fun o => o ≠ [] ∧ (Main.comma ∉ o) ∧ Main.strip o = o) l →
  Main.allow_origins (Main.join Main.comma l) = l ∧
  (∀ s, Main.allow_origins (Main.join Main.comma (Main.allow_origins s))
        = Main.allow_origins s).
Proof.
  intros Hne Hl. split; [by apply MainFacts.allow_origins_canonical |].
  intros s. destruct (MainFacts.allow_origins_well_formed s).
  by apply MainFacts.allow_origins_canonical.
Qed.

(** X12 on two origins. *)
Lemma allow_origins_round_trip_witness :
  Main.allow_origins (lit "http://localhost:3000,https://app.example.com")
  = [lit "http://localhost:3000"; lit "https://app.example.com"].
Proof.
  refine (proj1 (allow_origins_round_trip
            [lit "http://localhost:3000"; lit "https://app.example.com"] _ _)).
  - done.
  - constructor; [| constructor; [| constructor]];
      apply MainFacts.canonical_check; vm_compute; reflexivity.
Defined.

(** ** Checkout and webhook (subscriptions.py) *)

Ltac run_billing :=
  unfold Billing.stripe_webhook, Billing.create_checkout; run_m.

(** X13. The webhook changes nothing unless a verified subscription event
    names a user: a payload that cannot be parsed, or whose signature does
    not verify, is answered with the error 400 and the state of the process
    is as before; a verified event of any other type, or one whose metadata
    carries no user id or an empty one, is answered with success and the
    state is as before. *)
Theorem stripe_webhook_ignores (env : Env) (w : World) :
  Billing.stripe_webhook env Billing.InvalidPayload w
  = (Raised {| Edits.status_code := 400;
               Edits.detail := lit "Invalid payload" |}, w) ∧
  Billing.stripe_webhook env Billing.InvalidSignature w
  = (Raised {| Edits.status_code := 400;
               Edits.detail := lit "Invalid signature" |}, w) ∧
  (∀ event_type object,
     (event_type ≠ lit "customer.subscription.created" ∧
      event_type ≠ lit "customer.subscription.deleted")
     ∨ Billing.metadata_user_id object = None
     ∨ Billing.metadata_user_id object = Some [] →
     Billing.stripe_webhook env (Billing.Verified event_type object) w
     = (Ok {| Billing.response_status := lit "success" |}, w)).
Proof.
  split; [done |]. split; [done |].
  intros event_type object Hcase. run_billing.
  assert (Billing.acting_user object = None
          ∨ event_type ≠ lit "customer.subscription.created"
            ∧ event_type ≠ lit "customer.subscription.deleted") as Hact.
  { unfold Billing.acting_user.
    destruct Hcase as [? | [-> | ->]]; [by right | by left | by left]. }
  repeat case_decide; try done;
    (destruct Hact as [Ha | [? ?]]; [by rewrite Ha | done]).
Qed.

Section WebhookFacts.
Context (env : Env).

Lemma on_subscription_created_run (E : Type) (user_id sid price : pystr)
    (w : World) :
  let plan := if decide (price = STRIPE_PRICE_BASIC (settings env))
              then lit "basic" else lit "pro" in
  let d := set_subscriptions
             (insert user_id {| sub_user_id := user_id; sub_plan := Some plan;
                                sub_status := lit "active" |}) (db w) in
  Subscriptions.on_subscription_created (E := E) env user_id sid price w
  = (Ok tt,
     {| db := d; tasks := tasks w; draws := draws w; ticks := S (ticks w);
        log := log w
               ++ [(Sent user_id subscription_update
                      (SubscriptionPayload (lit "active") (Some plan)), d);
                   (Audited (utcnow env (ticks w))
                      (lit "subscription_created") user_id
                      [(lit "subscription_id", sid); (lit "plan", price)],
                    d)] |}).
Proof. cbn zeta. run_m. unfold DB.set_subscription. run_m. world_eq. Qed.

Lemma on_subscription_deleted_run (E : Type) (user_id sid : pystr)
    (w : World) :
  let d := set_subscriptions
             (insert user_id {| sub_user_id := user_id; sub_plan := None;
                                sub_status := lit "cancelled" |}) (db w) in
  Subscriptions.on_subscription_deleted (E := E) env user_id sid w
  = (Ok tt,
     {| db := d; tasks := tasks w; draws := draws w; ticks := S (ticks w);
        log := log w
               ++ [(Sent user_id subscription_update
                      (SubscriptionPayload (lit "cancelled") None), d);
                   (Audited (utcnow env (ticks w))
                      (lit "subscription_cancelled") user_id
                      [(lit "subscription_id", sid)], d)] |}).
Proof. cbn zeta. run_m. unfold DB.set_subscription. run_m. world_eq. Qed.


End WebhookFacts.



(** X15. [create_checkout] never writes to the store and never schedules a
    task. A plan other than "basic" and "pro" is refused with the error 400
    "Invalid plan" whatever Stripe would answer, and the state is as
    before; when Stripe refuses, the error 400 carries its message and the
    state is as before; when Stripe accepts, the session id is returned and
    exactly one audit record, [checkout_started], is emitted. *)
Theorem create_checkout_outcomes (env : Env) (STRIPE_PRICE_PRO : pystr)
    (session_create : pystr → pystr → pystr
                      → Result Billing.StripeError pystr)
    (plan user_id email : pystr) (w : World) :
  let run := Billing.create_checkout env STRIPE_PRICE_PRO session_create
               plan user_id email w in
  let price := if decide (plan = lit "basic")
               then STRIPE_PRICE_BASIC (settings env) else STRIPE_PRICE_PRO in
  db run.2 = db w ∧ tasks run.2 = tasks w ∧
  (plan ≠ lit "basic" → plan ≠ lit "pro" →
   run = (Raised {| Edits.status_code := 400;
                    Edits.detail := lit "Invalid plan" |}, w)) ∧
  (plan = lit "basic" ∨ plan = lit "pro" →
   match session_create price email user_id with
   | Raised e =>
       run = (Raised {| Edits.status_code := 400;
                        Edits.detail := Billing.stripe_str e |}, w)
   | Ok sid =>
       run.1 = Ok {| Billing.session_id := sid |} ∧
       ∃ ts, effects_since w run.2
             = [Audited ts (lit "checkout_started") user_id
                  [(lit "plan", plan); (lit "session_id", sid)]]
   end).
Proof.
  cbn zeta. unfold Billing.create_checkout.
  case_bool_decide as Hplan; cbn [negb].
  - assert (plan = lit "basic" ∨ plan = lit "pro") as Hvalid.
    { apply elem_of_cons in Hplan as [-> | Hplan]; [by left |].
      apply list_elem_of_singleton in Hplan. by right. }
    destruct (session_create _ email user_id) as [sid|e] eqn:Hs; run_m.
    + do 2 (split; [done |]).
      split; [intros ? ?; by destruct Hvalid |].
      intros _. split; [done |]. eexists.
      erewrite effects_since_app by (cbn [log]; reflexivity). done.
    + do 2 (split; [done |]).
      split; [intros ? ?; by destruct Hvalid | done].
  - run_m. do 3 (split; [done |]).
    intros [-> | ->]; exfalso; apply Hplan.
    + by left.
    + right. by left.
Qed.

(** ** Consistency of the store along the runs of the service *)

Section RunFacts.
Context (env : Env).

(** The store, the tasks and the draws after a run of [process_edit]. *)
Lemma process_edit_db (ext : Edits.Externals)
    (user_id edit_id image_path prompt : pystr) (w : World) :
  ∃ w',
    Edits.process_edit env ext user_id edit_id image_path prompt w
    = (Ok tt, w') ∧
    tasks w' = tasks w ∧ (draws w ≤ draws w')%nat ∧
    (external_failure env ext image_path prompt w = None ∧
     draws w' = S (draws w) ∧
     db w' = (increment_usage user_id (lit "edits_completed") 1
                (update_edit (utcnow env (ticks w)) edit_id
                   {| f_status := Some completed;
                      f_result_path := Some (rel_path_at env w) |}
                   (db w)).2).2
     ∨ is_Some (external_failure env ext image_path prompt w) ∧
       db w' = (update_edit (utcnow env (ticks w)) edit_id
                  {| f_status := Some failed; f_result_path := None |}
                  (db w)).2).
Proof.
  destruct (external_failure env ext image_path prompt w) as [e|] eqn:Hf.
  - destruct (process_edit_failed env ext user_id edit_id image_path prompt
                w e Hf)
      as (w' & pre & Hrun & Hdb & Htasks & Hdraws & _).
    exists w'. repeat (split; [done |]). right. by eauto.
  - destruct (process_edit_try_ok env ext user_id edit_id image_path prompt
                w Hf)
      as (image & url & content & _ & _ & _ & Hrun).
    cbn zeta in Hrun. eexists. split.
    { unfold Edits.process_edit, try_except. rewrite Hrun. reflexivity. }
    cbn [db tasks draws]. split; [done |]. split; [lia |]. by left.
Qed.

Lemma upload_run (E : Type) (user_id filename path mime : pystr) (w : World) :
  let u := uuid4 env (draws w) in
  let img := {| img_id := u; img_user_id := user_id;
                img_filename := filename; img_path := path; img_mime := mime;
                img_created_at := utcnow env (ticks w);
                img_status := lit "uploaded" |} in
  db_create_image (E := E) env user_id filename path mime w
  = (Ok img,
     {| db := set_images (insert u img) (db w); tasks := tasks w;
        draws := S (draws w); ticks := S (ticks w); log := log w |}).
Proof. cbn zeta. run_m. unfold DB.create_image. run_m. world_eq. Qed.

Lemma completed_count_insert_other (u eid : pystr) (e' : Edit) (d d' : InMemoryDB) :
  edits d' = <[eid := e']> (edits d) →
  ¬ (e_user_id e' = u ∧ e_status e' = completed) →
  (∀ e, edits d !! eid = Some e →
        ¬ (e_user_id e = u ∧ e_status e = completed)) →
  completed_count u d' = completed_count u d.
Proof.
  intros He Hnew Hold. unfold completed_count. rewrite He.
  by rewrite map_filter_insert_not'.
Qed.

Lemma completed_count_insert_completed (u eid : pystr) (e e' : Edit)
    (d d' : InMemoryDB) :
  edits d' = <[eid := e']> (edits d) →
  edits d !! eid = Some e → e_status e ≠ completed →
  e_user_id e' = u → e_status e' = completed →
  completed_count u d' = S (completed_count u d).
Proof.
  intros He Hl Hold Hu Hst. unfold completed_count. rewrite He.
  rewrite map_filter_insert_True by done.
  apply map_size_insert_None. apply map_lookup_filter_None. right.
  intros e0 He0 [_ Hc]. cbn in Hc. congruence.
Qed.

Lemma get_image_frame (u iid : pystr) (d d' : InMemoryDB) :
  images d' = images d → get_image u iid d' = get_image u iid d.
Proof. unfold get_image. by intros ->. Qed.

Lemma get_usage_frame (u : pystr) (d d' : InMemoryDB) :
  usage d' = usage d → get_usage u d' = get_usage u d.
Proof. unfold get_usage. by intros ->. Qed.

Lemma completed_count_frame (u : pystr) (d d' : InMemoryDB) :
  edits d' = edits d → completed_count u d' = completed_count u d.
Proof. unfold completed_count. by intros ->. Qed.

Lemma Consistent_init : Consistent env init.
Proof.
  split; cbn; try (intros ? ? H; by rewrite lookup_empty in H).
  - intros t Ht. by apply elem_of_nil in Ht.
  - intros u. unfold get_usage, completed_count. cbn.
    by rewrite !lookup_empty, map_filter_empty, map_size_empty.
  - intros u m _. unfold get_usage. cbn. by rewrite lookup_empty.
Qed.

Lemma Consistent_frame (w w' : World) :
  edits (db w') = edits (db w) → images (db w') = images (db w) →
  usage (db w') = usage (db w) → tasks w' = tasks w →
  (draws w ≤ draws w')%nat → Consistent env w → Consistent env w'.
Proof.
  intros He Hi Hu Ht Hd [H1 H2 H3 H4 H5 H6].
  split; rewrite ?He, ?Ht.
  - done.
  - intros eid e Hl. rewrite (get_image_frame _ _ _ _ Hi). by eapply H2.
  - rewrite Hi. intros iid img Hl.
    destruct (H3 iid img Hl) as (? & k & ? & ?).
    split; [done |]. exists k. split; [lia | done].
  - intros t Hin. destruct (H4 t Hin) as (e & img & ? & ? & ? & ? & ?).
    exists e, img. by rewrite (get_image_frame _ _ _ _ Hi).
  - intros u. rewrite (get_usage_frame _ _ _ Hu), (completed_count_frame _ _ _ He).
    apply H5.
  - intros u m Hm. rewrite (get_usage_frame _ _ _ Hu). by apply H6.
Qed.

Lemma Consistent_submit (w : World) (user_id image_id prompt : pystr) :
  Inv env w → Consistent env w →
  distinct_draws env (exec env (Submit user_id image_id prompt) w) →
  Consistent env (exec env (Submit user_id image_id prompt) w).
Proof.
  intros HI HC. cbn [exec].
  destruct (get_image user_id image_id (db w)) as [img|] eqn:Hg.
  2:{ by rewrite create_edit_not_found. }
  rewrite (create_edit_found env _ _ _ _ img Hg). cbn [snd Edits.prompt].
  unfold distinct_draws. cbn [draws]. intros Hnd.
  pose proof (next_uuid_fresh env w HI Hnd) as Hfresh.
  destruct HC as [H1 H2 H3 H4 H5 H6].
  set (u0 := uuid4 env (draws w)) in *.
  set (rec := {| e_id := u0; e_user_id := user_id; e_image_id := image_id;
                 e_prompt := prompt; e_status := queued;
                 e_result_path := None;
                 e_created_at := utcnow env (ticks w);
                 e_updated_at := utcnow env (S (ticks w)) |}).
  split; cbn [db tasks draws edits images set_edits].
  - intros eid e. destruct (decide (u0 = eid)) as [<- | Hne].
    + rewrite lookup_insert_eq. by intros [= <-].
    + rewrite lookup_insert_ne by done. apply H1.
  - intros eid e. rewrite (get_image_frame _ _ (db w)) by done.
    destruct (decide (u0 = eid)) as [<- | Hne].
    + rewrite lookup_insert_eq. intros [= <-]. by exists img.
    + rewrite lookup_insert_ne by done. apply H2.
  - intros iid i Hl. destruct (H3 iid i Hl) as (? & k & ? & ?).
    split; [done |]. exists k. split; [lia | done].
  - intros t [Ht | ->%list_elem_of_singleton]%elem_of_app.
    + destruct (H4 t Ht) as (e & i & He & ? & ? & ? & ?).
      exists e, i. rewrite (get_image_frame _ _ (db w)) by done.
      split; [| done]. rewrite lookup_insert_ne; [done |].
      intros Heq. rewrite <- Heq in He. congruence.
    + exists rec, img. cbn [task_edit_id task_user_id task_prompt
                           task_image_path].
      rewrite lookup_insert_eq. rewrite (get_image_frame _ _ (db w)) by done.
      done.
  - intros u. rewrite (get_usage_frame _ (db w)) by done.
    rewrite (completed_count_insert_other u u0 rec (db w)); [apply H5 | done | |].
    + by intros [_ ?].
    + intros e He. congruence.
  - intros u m Hm. rewrite (get_usage_frame _ (db w)) by done. by apply H6.
Qed.

Lemma Consistent_run_task (w : World) (k : nat) (ext : Edits.Externals) :
  Inv env w → Consistent env w → Consistent env (exec env (RunTask k ext) w).
Proof.
  intros HI HC. cbn [exec].
  destruct (tasks w !! k) as [t|] eqn:Hk; [| done].
  destruct (process_edit_db ext (task_user_id t) (task_edit_id t)
              (task_image_path t) (task_prompt t) (set_tasks (delete k) w))
    as (w' & -> & Htasks & Hdraws & Hcase).
  cbn [snd]. cbn [db tasks draws ticks set_tasks] in *.
  destruct HC as [H1 H2 H3 H4 H5 H6].
  destruct (H4 t) as (ed & img & Hed & Huser & _);
    [by eapply list_elem_of_lookup_2 |].
  destruct (inv_tasks_queued env w HI t) as (ed0 & Hed0 & Hq);
    [by eapply list_elem_of_lookup_2 |].
  assert (ed0 = ed) as -> by congruence.
  set (eid := task_edit_id t) in *. set (tu := task_user_id t) in *.
  (* the store after the run: the edit rewritten, and the counter of the
     task's user raised when the run completes *)
  assert (∃ fields,
            edits (db w')
            = <[eid := apply_fields fields (utcnow env (ticks w)) ed]>
                (edits (db w)) ∧
            images (db w') = images (db w) ∧
            (f_status fields = Some completed ∧
             (∀ u m, get_usage u (db w') !! m
                     = if decide (u = tu ∧ m = lit "edits_completed")
                       then Some (default 0 (get_usage u (db w) !! m) + 1)
                       else get_usage u (db w) !! m)
             ∨ f_status fields = Some failed ∧ usage (db w') = usage (db w)))
    as (fields & Hedits & Himages & Hfields).
  { destruct Hcase as [(_ & _ & Hdb) | (_ & Hdb)].
    - eexists. rewrite Hdb.
      destruct (update_edit_frame (utcnow env (ticks w)) eid
                  {| f_status := Some completed;
                     f_result_path :=
                       Some (rel_path_at env (set_tasks (delete k) w)) |}
                  (db w)) as (Hi1 & _ & Hu1).
      destruct (increment_usage_frame
                  (update_edit (utcnow env (ticks w)) eid
                     {| f_status := Some completed;
                        f_result_path :=
                          Some (rel_path_at env (set_tasks (delete k) w)) |}
                     (db w)).2 tu (lit "edits_completed") 1)
        as (Hi2 & He2 & _).
      rewrite He2, Hi2, Hi1, (update_edit_lookup _ _ _ _ _ Hed).
      split; [reflexivity |]. split; [done |]. left. split; [done |].
      intros u m. destruct (decide (u = tu)) as [-> | Hu].
      + rewrite get_usage_increment_usage_same.
        rewrite (get_usage_frame tu (db w)) by done.
        destruct (decide (m = lit "edits_completed")) as [-> | Hm].
        * rewrite decide_True by done. by rewrite lookup_insert_eq.
        * rewrite decide_False by (by intros [_ ?]).
          by rewrite lookup_insert_ne.
      + rewrite decide_False by (by intros [? _]).
        rewrite get_usage_increment_usage_other by done.
        by rewrite (get_usage_frame u (db w)).
    - eexists. rewrite Hdb.
      destruct (update_edit_frame (utcnow env (ticks w)) eid
                  {| f_status := Some failed; f_result_path := None |}
                  (db w)) as (Hi1 & _ & Hu1).
      rewrite (update_edit_lookup _ _ _ _ _ Hed).
      split; [reflexivity |]. split; [done |]. right. by split. }
  clear Hcase.
  assert (∀ u i, get_image u i (db w') = get_image u i (db w)) as Hgi.
  { intros u i. by apply get_image_frame. }
  split; rewrite ?Htasks.
  - intros eid' e. rewrite Hedits.
    destruct (decide (eid = eid')) as [<- | Hne].
    + rewrite lookup_insert_eq. intros [= <-]. cbn. by apply H1.
    + rewrite lookup_insert_ne by done. apply H1.
  - intros eid' e. rewrite Hedits.
    destruct (decide (eid = eid')) as [<- | Hne].
    + rewrite lookup_insert_eq. intros [= <-]. cbn. rewrite Hgi.
      by eapply H2.
    + rewrite lookup_insert_ne by done. intros He. rewrite Hgi.
      by eapply H2.
  - rewrite Himages. intros iid i Hl.
    destruct (H3 iid i Hl) as (? & j & ? & ?).
    split; [done |]. exists j. split; [lia | done].
  - intros t' Ht'.
    destruct (delete_task_other _ _ _ _ (inv_tasks_nodup env w HI) Hk Ht')
      as [Hin Hne].
    destruct (H4 t' Hin) as (e & i & He & ? & ? & ? & ?).
    exists e, i. rewrite Hedits, Hgi. by rewrite lookup_insert_ne.
  - intros u. destruct Hfields as [[Hst Hus] | [Hst Hus]].
    + rewrite Hus. destruct (decide (u = tu)) as [-> | Hu].
      * rewrite decide_True by done. cbn.
        rewrite (completed_count_insert_completed tu eid ed _ (db w) (db w')
                   Hedits Hed); [rewrite H5; lia | congruence | done |].
        cbn. by rewrite Hst.
      * rewrite decide_False by (by intros [? _]).
        rewrite (completed_count_insert_other u eid _ (db w) (db w') Hedits);
          [apply H5 | |].
        -- cbn. intros [? _]. congruence.
        -- intros e He [_ Hc]. congruence.
    + rewrite (get_usage_frame _ _ _ Hus).
      rewrite (completed_count_insert_other u eid _ (db w) (db w') Hedits);
        [apply H5 | |].
      * cbn. rewrite Hst. cbn. by intros [_ ?].
      * intros e He [_ Hc]. congruence.
  - intros u m Hm. destruct Hfields as [[Hst Hus] | [Hst Hus]].
    + rewrite Hus, decide_False by (by intros [_ ?]). by apply H6.
    + rewrite (get_usage_frame _ _ _ Hus). by apply H6.
Qed.

Lemma Consistent_upload (w : World) (user_id filename path mime : pystr) :
  Consistent env w →
  distinct_draws env (exec env (Upload user_id filename path mime) w) →
  Consistent env (exec env (Upload user_id filename path mime) w).
Proof.
  intros HC. cbn [exec]. rewrite upload_run. cbn [snd].
  unfold distinct_draws. cbn [draws]. intros Hnd.
  destruct HC as [H1 H2 H3 H4 H5 H6].
  set (u0 := uuid4 env (draws w)) in *.
  assert (images (db w) !! u0 = None) as Hfresh.
  { destruct (images (db w) !! u0) as [i|] eqn:Hi; [| done].
    destruct (H3 _ _ Hi) as (_ & k & Hk & Heq).
    assert (draws w = k); [| lia].
    eapply (NoDup_lookup _ (draws w) k u0 Hnd).
    - rewrite list_lookup_fmap, lookup_seq_lt by lia. done.
    - rewrite list_lookup_fmap, lookup_seq_lt by lia. cbn. by rewrite Heq. }
  assert (∀ new u i img, get_image u i (db w) = Some img →
            get_image u i (set_images (insert u0 new) (db w)) = Some img)
    as Hgi.
  { intros new u i img Hg. unfold get_image in *. cbn [images set_images].
    rewrite lookup_insert_ne; [done |]. intros <-. by rewrite Hfresh in Hg. }
  split; cbn [db tasks draws edits images set_images].
  - done.
  - intros eid e He. destruct (H2 eid e He) as [img Hg].
    exists img. by apply Hgi.
  - intros iid i. destruct (decide (u0 = iid)) as [<- | Hne].
    + rewrite lookup_insert_eq. intros [= <-]. split; [done |].
      exists (draws w). split; [lia | done].
    + rewrite lookup_insert_ne by done. intros Hl.
      destruct (H3 iid i Hl) as (? & k & ? & ?).
      split; [done |]. exists k. split; [lia | done].
  - intros t Ht. destruct (H4 t Ht) as (e & i & ? & ? & ? & ? & ?).
    exists e, i. repeat (split; [done |]). split; [by apply Hgi | done].
  - intros u. rewrite (get_usage_frame _ (db w)) by done.
    rewrite (completed_count_frame _ (db w)) by done. apply H5.
  - intros u m Hm. rewrite (get_usage_frame _ (db w)) by done. by apply H6.
Qed.

Lemma Consistent_exec (op : Op) (w : World) :
  Inv env w → Consistent env w → distinct_draws env (exec env op w) →
  Consistent env (exec env op w).
Proof.
  intros HI HC Hnd.
  destruct op as [uid iid pr | uid iid | k ext | uid fn pa mi | uid sid pid
                 | uid sid].
  - by apply Consistent_submit.
  - cbn [exec]. destruct (get_image uid iid (db w)) as [img|] eqn:Hg.
    + by rewrite (list_edits_found _ _ _ img Hg).
    + by rewrite list_edits_not_found.
  - by apply Consistent_run_task.
  - by apply Consistent_upload.
  - cbn [exec]. rewrite on_subscription_created_run. cbn [snd].
    by eapply Consistent_frame; [..| exact HC]; cbn; try done; lia.
  - cbn [exec]. rewrite on_subscription_deleted_run. cbn [snd].
    by eapply Consistent_frame; [..| exact HC]; cbn; try done; lia.
Qed.

Lemma Consistent_run (ops : list Op) :
  distinct_draws env (run env ops init) → Consistent env (run env ops init).
Proof.
  induction ops as [|op ops IH] using rev_ind; [intros _; apply Consistent_init |].
  rewrite run_snoc. intros Hnd.
  assert (distinct_draws env (run env ops init)) as Hnd'.
  { eapply distinct_draws_mono; [| exact Hnd]. apply exec_draws. }
  apply Consistent_exec; [| by apply IH | done].
  by apply Inv_run; [apply Inv_init |].
Qed.

Lemma Consistent_reachable (w : World) :
  reachable env w → distinct_draws env w → Consistent env w.
Proof. intros [ops ->]. apply Consistent_run. Qed.

End RunFacts.

Section PathInvariant.
Context (env : Env).

Lemma shaped_draws_lookup (w : World) (k : nat) :
  shaped_draws env w → (k < draws w)%nat →
  Storage.is_uuid_str (uuid4 env k) = true.
Proof.
  unfold shaped_draws. intros Hs Hk.
  eapply (Forall_lookup_1 _ _ k) in Hs; [exact Hs |].
  by rewrite list_lookup_fmap, lookup_seq_lt.
Qed.

Lemma result_path_of_inj (w : World) (j k : nat) :
  distinct_draws env w → shaped_draws env w →
  (j < draws w)%nat → (k < draws w)%nat →
  result_path_of env j = result_path_of env k → j = k.
Proof.
  intros Hnd Hs Hj Hk Heq. apply (distinct_draws_inj env w); try done.
  eapply (StorageFacts.generate_result_path_inj (RESULTS_DIR (settings env))
            _ _ (lit "enhanced.jpg") (lit "enhanced.jpg"));
    [by eapply shaped_draws_lookup | by eapply shaped_draws_lookup |].
  unfold result_path_of, Storage.generate_result_path in *. cbn [snd] in Heq.
  by rewrite Heq.
Qed.

(** A step that brings no new result path keeps the paths distinct. *)
Lemma DistinctPaths_old_paths (w w' : World) :
  (∀ eid e p, edits (db w') !! eid = Some e → e_result_path e = Some p →
     ∃ e0, edits (db w) !! eid = Some e0 ∧ e_result_path e0 = Some p) →
  (draws w ≤ draws w')%nat → DistinctPaths env w → DistinctPaths env w'.
Proof.
  intros Hold Hd [H1 H2]. split.
  - intros eid e p He Hp. destruct (Hold _ _ _ He Hp) as (e0 & He0 & Hp0).
    destruct (H1 _ _ _ He0 Hp0) as (k & Hk & ->).
    exists k. split; [lia | done].
  - intros eid1 eid2 e1 e2 p He1 He2 Hp1 Hp2.
    destruct (Hold _ _ _ He1 Hp1) as (a & Ha & Hpa).
    destruct (Hold _ _ _ He2 Hp2) as (b & Hb & Hpb).
    by eapply H2.
Qed.

Lemma DistinctPaths_init : DistinctPaths env init.
Proof. split; cbn; intros; by rewrite lookup_empty in *. Qed.

Lemma DistinctPaths_run_task (w : World) (k : nat) (ext : Edits.Externals) :
  DistinctPaths env w →
  distinct_draws env (exec env (RunTask k ext) w) →
  shaped_draws env (exec env (RunTask k ext) w) →
  DistinctPaths env (exec env (RunTask k ext) w).
Proof.
  intros HD. cbn [exec].
  destruct (tasks w !! k) as [t|] eqn:Hk; [| done].
  destruct (process_edit_db env ext (task_user_id t) (task_edit_id t)
              (task_image_path t) (task_prompt t) (set_tasks (delete k) w))
    as (w' & -> & _ & Hdraws & Hcase).
  cbn [snd]. cbn [db tasks draws ticks set_tasks] in *.
  set (eid := task_edit_id t) in *. intros Hnd Hs.
  destruct (edits (db w) !! eid) as [ed|] eqn:Hed.
  2:{ (* no such edit: nothing is written to the edits *)
      apply (DistinctPaths_old_paths w); [| done | done].
      assert (edits (db w') = edits (db w)) as ->; [| by eauto].
      destruct Hcase as [(_ & _ & ->) | (_ & ->)].
      - destruct (increment_usage_frame
                    (update_edit (utcnow env (ticks w)) eid
                       {| f_status := Some completed;
                          f_result_path :=
                            Some (rel_path_at env (set_tasks (delete k) w)) |}
                       (db w)).2 (task_user_id t) (lit "edits_completed") 1)
          as (_ & -> & _).
        by rewrite update_edit_absent.
      - by rewrite update_edit_absent. }
  destruct Hcase as [(_ & Hdr & Hdb) | (_ & Hdb)].
  - (* completed: the path generated from the UUID just drawn *)
    assert (edits (db w')
            = <[eid := apply_fields
                         {| f_status := Some completed;
                            f_result_path :=
                              Some (result_path_of env (draws w)) |}
                         (utcnow env (ticks w)) ed]> (edits (db w)))
      as Hedits.
    { rewrite Hdb.
      destruct (increment_usage_frame
                  (update_edit (utcnow env (ticks w)) eid
                     {| f_status := Some completed;
                        f_result_path :=
                          Some (rel_path_at env (set_tasks (delete k) w)) |}
                     (db w)).2 (task_user_id t) (lit "edits_completed") 1)
        as (_ & -> & _).
      by rewrite (update_edit_lookup _ _ _ _ _ Hed). }
    destruct HD as [H1 H2].
    assert (∀ eid' e p, eid' ≠ eid → edits (db w) !! eid' = Some e →
              e_result_path e = Some p →
              p ≠ result_path_of env (draws w)) as Hnew.
    { intros eid' e p _ He Hp Heq.
      destruct (H1 _ _ _ He Hp) as (j & Hj & ->).
      assert (j = draws w); [| lia].
      apply (result_path_of_inj w'); try done; lia. }
    split; rewrite Hedits.
    + intros eid' e p. destruct (decide (eid = eid')) as [<- | Hne].
      * rewrite lookup_insert_eq. intros [= <-]. cbn. intros [= <-].
        exists (draws w). split; [lia | done].
      * rewrite lookup_insert_ne by done. intros He Hp.
        destruct (H1 _ _ _ He Hp) as (j & Hj & ->).
        exists j. split; [lia | done].
    + intros eid1 eid2 e1 e2 p.
      destruct (decide (eid = eid1)) as [<- | Hne1];
        destruct (decide (eid = eid2)) as [<- | Hne2]; [done | | |].
      * rewrite lookup_insert_eq, lookup_insert_ne by done.
        intros [= <-] He2. cbn. intros [= <-] Hp2.
        exfalso. by eapply (Hnew eid2).
      * rewrite lookup_insert_eq, lookup_insert_ne by done.
        intros He1 [= <-] Hp1. cbn. intros [= <-].
        exfalso. by eapply (Hnew eid1).
      * rewrite !lookup_insert_ne by done. apply H2.
  - (* failed: the result path is left as it was *)
    apply (DistinctPaths_old_paths w); [| done | done].
    rewrite Hdb, (update_edit_lookup _ _ _ _ _ Hed).
    intros eid' e p. destruct (decide (eid = eid')) as [<- | Hne].
    + rewrite lookup_insert_eq. intros [= <-]. cbn. by eauto.
    + rewrite lookup_insert_ne by done. by eauto.
Qed.

Lemma DistinctPaths_exec (op : Op) (w : World) :
  DistinctPaths env w →
  distinct_draws env (exec env op w) → shaped_draws env (exec env op w) →
  DistinctPaths env (exec env op w).
Proof.
  intros HD Hnd Hs.
  destruct op as [uid iid pr | uid iid | k ext | uid fn pa mi | uid sid pid
                 | uid sid].
  - revert Hnd Hs. cbn [exec].
    destruct (get_image uid iid (db w)) as [img|] eqn:Hg.
    2:{ by rewrite create_edit_not_found. }
    rewrite (create_edit_found env _ _ _ _ img Hg). cbn [snd]. intros _ _.
    apply (DistinctPaths_old_paths w); [| cbn; lia | done].
    cbn [db edits set_edits]. intros eid e p.
    destruct (decide (uuid4 env (draws w) = eid)) as [<- | Hne].
    + rewrite lookup_insert_eq. by intros [= <-].
    + rewrite lookup_insert_ne by done. by eauto.
  - destruct (exec_other_frame env (ListEdits uid iid) w) as (He & _ & ?).
    apply (DistinctPaths_old_paths w); [rewrite He; by eauto | done | done].
  - by apply DistinctPaths_run_task.
  - destruct (exec_other_frame env (Upload uid fn pa mi) w) as (He & _ & ?).
    apply (DistinctPaths_old_paths w); [rewrite He; by eauto | done | done].
  - destruct (exec_other_frame env (SubscriptionCreated uid sid pid) w)
      as (He & _ & ?).
    apply (DistinctPaths_old_paths w); [rewrite He; by eauto | done | done].
  - destruct (exec_other_frame env (SubscriptionDeleted uid sid) w)
      as (He & _ & ?).
    apply (DistinctPaths_old_paths w); [rewrite He; by eauto | done | done].
Qed.

Lemma shaped_draws_mono (w w' : World) :
  (draws w ≤ draws w')%nat → shaped_draws env w' → shaped_draws env w.
Proof.
  unfold shaped_draws. intros Hle Hs.
  replace (draws w') with (draws w + (draws w' - draws w))%nat in Hs by lia.
  rewrite seq_app, fmap_app in Hs. by apply Forall_app in Hs as [? _].
Qed.

Lemma DistinctPaths_run (ops : list Op) :
  distinct_draws env (run env ops init) →
  shaped_draws env (run env ops init) →
  DistinctPaths env (run env ops init).
Proof.
  induction ops as [|op ops IH] using rev_ind;
    [intros _ _; apply DistinctPaths_init |].
  rewrite run_snoc. intros Hnd Hs.
  apply DistinctPaths_exec; [| done | done].
  apply IH.
  - eapply distinct_draws_mono; [| exact Hnd]. apply exec_draws.
  - eapply shaped_draws_mono; [| exact Hs]. apply exec_draws.
Qed.

End PathInvariant.

Section MoreRunFacts.
Context (env : Env).

Lemma stored_entry_stored (eid : pystr) (d d' : InMemoryDB) :
  Forall (fun x => is_stored x.1 = true) (stored_entry eid d d').
Proof.
  unfold stored_entry. destruct (edits d' !! eid); [| constructor].
  destruct (truthy _); by repeat constructor.
Qed.

Lemma stored_entry_filter (eid : pystr) (d d' : InMemoryDB)
    (f : Effect → bool) :
  (∀ ef, is_stored ef = true → f ef = false) →
  List.filter f (stored_entry eid d d').*1 = [].
Proof.
  intros Hf. apply filter_none, Forall_fmap.
  eapply Forall_impl; [apply stored_entry_stored |].
  intros [ef ?] ?. by apply Hf.
Qed.

(** The usage counters after one operation. *)
Lemma exec_usage (op : Op) (w : World) :
  usage (db (exec env op w)) = usage (db w) ∨
  ∃ k ext t, op = RunTask k ext ∧ tasks w !! k = Some t ∧
    db (exec env op w)
    = (increment_usage (task_user_id t) (lit "edits_completed") 1
         (update_edit (utcnow env (ticks w)) (task_edit_id t)
            {| f_status := Some completed;
               f_result_path := Some (rel_path_at env w) |} (db w)).2).2.
Proof.
  destruct op as [uid iid pr | uid iid | k ext | uid fn pa mi | uid sid pid
                 | uid sid]; cbn [exec].
  - left. destruct (get_image uid iid (db w)) as [img|] eqn:Hg.
    + by rewrite (create_edit_found env _ _ _ _ img Hg).
    + by rewrite create_edit_not_found.
  - left. destruct (get_image uid iid (db w)) as [img|] eqn:Hg.
    + by rewrite (list_edits_found _ _ _ img Hg).
    + by rewrite list_edits_not_found.
  - destruct (tasks w !! k) as [t|] eqn:Hk; [| by left].
    destruct (process_edit_db env ext (task_user_id t) (task_edit_id t)
                (task_image_path t) (task_prompt t) (set_tasks (delete k) w))
      as (w' & -> & _ & _ & [(_ & _ & Hdb) | (_ & Hdb)]); cbn [snd].
    + right. by exists k, ext, t.
    + left. rewrite Hdb.
      exact (proj2 (proj2 (update_edit_frame _ _ _ _))).
  - left. by rewrite upload_run.
  - left. by rewrite on_subscription_created_run.
  - left. by rewrite on_subscription_deleted_run.
Qed.

Lemma exec_usage_step (op : Op) (w : World) (u m : pystr) :
  let before := default 0 (get_usage u (db w) !! m) in
  let after := default 0 (get_usage u (db (exec env op w)) !! m) in
  before ≤ after ≤ before + 1.
Proof.
  cbn zeta. destruct (exec_usage op w) as [Hu | (k & ext & t & _ & _ & Hdb)].
  - rewrite (get_usage_frame _ _ _ Hu). lia.
  - rewrite Hdb.
    destruct (update_edit_frame (utcnow env (ticks w)) (task_edit_id t)
                {| f_status := Some completed;
                   f_result_path := Some (rel_path_at env w) |} (db w))
      as (_ & _ & Hu1).
    destruct (decide (u = task_user_id t)) as [-> | Hne].
    + rewrite get_usage_increment_usage_same.
      rewrite (get_usage_frame _ _ _ Hu1).
      destruct (decide (m = lit "edits_completed")) as [-> | Hm].
      * rewrite lookup_insert_eq. cbn. lia.
      * rewrite lookup_insert_ne by done. lia.
    + rewrite get_usage_increment_usage_other by done.
      rewrite (get_usage_frame _ _ _ Hu1). lia.
Qed.


(** A check of [shaped_draws] that computes. *)
Lemma shaped_draws_check (w : World) :
  forallb Storage.is_uuid_str (uuid4 env <$> seq 0 (draws w)) = true →
  shaped_draws env w.
Proof.
  unfold shaped_draws. intros H. apply Forall_forall. intros u Hu.
  rewrite forallb_forall in H. apply H. by apply list_elem_of_In.
Qed.

End MoreRunFacts.



(** X17. In every state the service reaches, every edit is stored under its
    own id and refers to an image that exists and belongs to the owner of
    the edit; and every pending task carries the owner and the prompt of
    its edit and the stored path of that edit's image. *)
Theorem edits_refer_to_owned_images (env : Env) (w : World) :
  reachable env w → distinct_draws env w →
  (∀ eid e, edits (db w) !! eid = Some e →
     e_id e = eid ∧
     ∃ img, get_image (e_user_id e) (e_image_id e) (db w) = Some img) ∧
  (∀ t, t ∈ tasks w →
     ∃ e img,
       edits (db w) !! task_edit_id t = Some e ∧
       e_user_id e = task_user_id t ∧ e_prompt e = task_prompt t ∧
       get_image (e_user_id e) (e_image_id e) (db w) = Some img ∧
       img_path img = task_image_path t).
Proof.
  intros Hreach Hnd.
  destruct (Consistent_reachable env w Hreach Hnd) as [H1 H2 _ H4 _ _].
  split; [| done]. intros eid e He. split; [by apply H1 | by eapply H2].
Qed.

(** X17 on the example. *)
Lemma edits_refer_to_owned_images_witness :
  ∃ e img,
    edits (db Example.submitted) !! Example.uuid 1 = Some e ∧
    get_image (e_user_id e) (e_image_id e) (db Example.submitted) = Some img.
Proof.
  assert (reachable Example.env Example.submitted) as Hreach.
  { exists [Example.upload; Example.submit]. reflexivity. }
  assert (distinct_draws Example.env Example.submitted) as Hnd.
  { apply distinct_draws_check. vm_compute. reflexivity. }
  destruct (edits_refer_to_owned_images Example.env Example.submitted
              Hreach Hnd) as [Hedits _].
  assert (∃ e, edits (db Example.submitted) !! Example.uuid 1 = Some e)
    as [e He] by (eexists; vm_compute; reflexivity).
  destruct (Hedits _ _ He) as (_ & img & Himg).
  by exists e, img.
Defined.



(** X19. In every state the service reaches, while the UUIDs drawn are
    pairwise different and have the form of a UUID text, every result path
    of the store is the path generated from one of the UUIDs drawn, and no
    two edits hold the same result path. *)
Theorem result_paths_distinct (env : Env) (w : World) :
  reachable env w → distinct_draws env w → shaped_draws env w →
  (∀ eid e p, edits (db w) !! eid = Some e → e_result_path e = Some p →
     ∃ k, (k < draws w)%nat ∧ p = result_path_of env k) ∧
  (∀ eid1 eid2 e1 e2 p,
     edits (db w) !! eid1 = Some e1 → edits (db w) !! eid2 = Some e2 →
     e_result_path e1 = Some p → e_result_path e2 = Some p → eid1 = eid2).
Proof.
  intros [ops ->] Hnd Hs.
  destruct (DistinctPaths_run env ops Hnd Hs) as [H1 H2]. by split.
Qed.

(** X19 on the example: the first two completed edits hold different
    paths. *)
Lemma result_paths_distinct_witness :
  let w := run Example.env (Example.completions 2) Example.uploaded in
  ∃ e1 e2,
    edits (db w) !! Example.uuid 1 = Some e1 ∧
    edits (db w) !! Example.uuid 3 = Some e2 ∧
    is_Some (e_result_path e1) ∧ e_result_path e1 ≠ e_result_path e2.
Proof.
  intros w.
  assert (reachable Example.env w) as Hreach.
  { exists (Example.upload :: Example.completions 2). reflexivity. }
  assert (distinct_draws Example.env w) as Hnd.
  { apply distinct_draws_check. vm_compute. reflexivity. }
  assert (shaped_draws Example.env w) as Hs.
  { apply shaped_draws_check. vm_compute. reflexivity. }
  destruct (result_paths_distinct Example.env w Hreach Hnd Hs) as [_ Hd].
  assert (∃ e1 p, edits (db w) !! Example.uuid 1 = Some e1
                  ∧ e_result_path e1 = Some p) as (e1 & p & He1 & Hp1).
  { eexists _, _. split; vm_compute; reflexivity. }
  assert (∃ e2, edits (db w) !! Example.uuid 3 = Some e2) as (e2 & He2).
  { eexists. vm_compute. reflexivity. }
  exists e1, e2. repeat (split; [done || by rewrite Hp1 |]).
  rewrite Hp1. intros Hp2.
  assert (Example.uuid 1 = Example.uuid 3) as Heq
    by (by eapply (Hd _ _ e1 e2 p)).
  by vm_compute in Heq.
Defined.

(** X20. A run of [process_edit], whatever its outside calls do, leaves
    the images, the subscriptions and the pending tasks as they are, writes
    no edit other than its own, creates none (an unknown id stays unknown),
    keeps the id, the owner, the image, the prompt and the creation time of
    its edit, and changes no counter other than "edits_completed" of its
    user. *)
Theorem process_edit_touches_only_its_edit (env : Env) (ext : Edits.Externals)
    (user_id edit_id image_path prompt : pystr) (w : World) :
  let w' :=
    (Edits.process_edit env ext user_id edit_id image_path prompt w).2 in
  images (db w') = images (db w) ∧
  subscriptions (db w') = subscriptions (db w) ∧
  tasks w' = tasks w ∧
  (∀ eid, eid ≠ edit_id → edits (db w') !! eid = edits (db w) !! eid) ∧
  match edits (db w) !! edit_id with
  | None => edits (db w') = edits (db w)
  | Some e =>
      ∃ e', edits (db w') !! edit_id = Some e' ∧
        e_id e' = e_id e ∧ e_user_id e' = e_user_id e ∧
        e_image_id e' = e_image_id e ∧ e_prompt e' = e_prompt e ∧
        e_created_at e' = e_created_at e
  end ∧
  (∀ u, u ≠ user_id → get_usage u (db w') = get_usage u (db w)) ∧
  (∀ m, m ≠ lit "edits_completed" →
     get_usage user_id (db w') !! m = get_usage user_id (db w) !! m).
Proof.
  cbn zeta.
  destruct (process_edit_db env ext user_id edit_id image_path prompt w)
    as (w' & -> & Htasks & _ & Hdb). cbn [snd].
  assert (∃ fields d1,
    d1 = (update_edit (utcnow env (ticks w)) edit_id fields (db w)).2 ∧
    images (db w') = images d1 ∧ edits (db w') = edits d1 ∧
    subscriptions (db w') = subscriptions d1 ∧
    (∀ u, u ≠ user_id → get_usage u (db w') = get_usage u d1) ∧
    (∀ m, m ≠ lit "edits_completed" →
       get_usage user_id (db w') !! m = get_usage user_id d1 !! m))
    as (fields & d1 & Hd1 & Him & Hed & Hsub & Hother & Hmetric).
  { destruct Hdb as [(_ & _ & ->) | (_ & ->)].
    - eexists _, _. split; [reflexivity |].
      destruct (increment_usage_frame
                  (update_edit (utcnow env (ticks w)) edit_id
                     {| f_status := Some completed;
                        f_result_path := Some (rel_path_at env w) |}
                     (db w)).2 user_id (lit "edits_completed") 1)
        as (? & ? & ?).
      do 3 (split; [done |]). split.
      + intros u Hu. by apply get_usage_increment_usage_other.
      + intros m Hm. rewrite get_usage_increment_usage_same.
        by rewrite lookup_insert_ne.
    - by eexists _, _. }
  destruct (update_edit_frame (utcnow env (ticks w)) edit_id fields (db w))
    as (Him1 & Hsub1 & Hus1). rewrite <- Hd1 in Him1, Hsub1, Hus1.
  split; [congruence |]. split; [congruence |]. split; [done |].
  rewrite Hed, Hd1.
  destruct (edits (db w) !! edit_id) as [e|] eqn:He.
  - rewrite (update_edit_lookup _ _ _ _ _ He).
    split; [by intros eid Hne; rewrite lookup_insert_ne |].
    split; [rewrite lookup_insert_eq; by eexists |].
    split.
    + intros u Hu. rewrite (Hother u Hu). by apply get_usage_frame.
    + intros m Hm. rewrite (Hmetric m Hm). by rewrite (get_usage_frame _ _ _ Hus1).
  - rewrite (update_edit_absent _ _ _ _ He) in *. rewrite Hd1 in *.
    do 2 (split; [done |]). split.
    + intros u Hu. by rewrite (Hother u Hu).
    + intros m Hm. by rewrite (Hmetric m Hm).
Qed.

(** X21. No operation of the service lowers a usage counter: one operation
    leaves every counter of every user as it is or raises it by exactly one,
    and along any sequence of operations a counter never decreases. *)
Theorem usage_never_decreases (env : Env) (ops : list Op) (op : Op)
    (w : World) (u m : pystr) :
  let count w := default 0 (get_usage u (db w) !! m) in
  count w ≤ count (exec env op w) ≤ count w + 1 ∧
  count w ≤ count (run env ops w).
Proof.
  cbn zeta. split; [apply exec_usage_step |].
  induction ops as [|o ops IH] using rev_ind; [cbn; lia |].
  rewrite run_snoc.
  pose proof (exec_usage_step env o (run env ops w) u m) as Hstep.
  cbn zeta in Hstep. lia.
Qed.

(** X22. [list_edits] never changes the state. It raises 404 exactly when
    the user owns no image of the given id; otherwise it returns the
    responses of exactly the stored edits of that user on that image, so no
    edit of another user or of another image is ever listed. *)
Theorem list_edits_owner_only (image_id user_id : pystr) (w : World) :
  (Edits.list_edits image_id user_id w).2 = w ∧
  match (Edits.list_edits image_id user_id w).1 with
  | Raised e =>
      get_image user_id image_id (db w) = None ∧ Edits.status_code e = 404
  | Ok l =>
      is_Some (get_image user_id image_id (db w)) ∧
      ∀ r, r ∈ l ↔
        ∃ eid e, edits (db w) !! eid = Some e ∧ e_user_id e = user_id ∧
                 e_image_id e = image_id ∧ r = Edits.EditResponse_of e
  end.
Proof.
  destruct (get_image user_id image_id (db w)) as [img|] eqn:Hg.
  - rewrite (list_edits_found _ _ _ img Hg). cbn [fst snd].
    split; [done |]. split; [by eexists |].
    intros r. rewrite list_elem_of_fmap. split.
    + intros (e & -> & He).
      apply elem_of_list_edits_for_image in He as ([eid He] & Hu & Hi).
      by exists eid, e.
    + intros (eid & e & He & Hu & Hi & ->). exists e. split; [done |].
      apply elem_of_list_edits_for_image. split; [by exists eid | done].
  - by rewrite list_edits_not_found.
Qed.

(** X23. A run of [process_edit], whatever its outside calls do and whether
    or not the edit exists, sends exactly one [edit_status] notification, at
    most one [usage_alert], and writes exactly one audit record; the status
    notified is [completed] exactly when no outside call failed, every
    notification of the run is addressed to the user of the run, and the
    audit record names that user. *)
Theorem process_edit_notifies_its_user (env : Env) (ext : Edits.Externals)
    (user_id edit_id image_path prompt : pystr) (w : World) :
  let w' :=
    (Edits.process_edit env ext user_id edit_id image_path prompt w).2 in
  let trace := effects_since w w' in
  (∃ st rp err,
     List.filter is_edit_status trace
     = [Sent user_id edit_status (EditStatusPayload edit_id st rp err)] ∧
     (st = completed ∧ err = None ∧
      external_failure env ext image_path prompt w = None
      ∨ st = failed ∧ rp = None ∧ is_Some err ∧
        is_Some (external_failure env ext image_path prompt w))) ∧
  (length (List.filter is_usage_alert trace) ≤ 1)%nat ∧
  (∃ ts action details,
     List.filter is_audited trace = [Audited ts action user_id details]) ∧
  Forall (fun ef => match ef with
                    | Sent u _ _ => u = user_id
                    | _ => True
                    end) (List.filter is_sent trace).
Proof.
  cbn zeta.
  destruct (external_failure env ext image_path prompt w) as [e|] eqn:Hf.
  - destruct (process_edit_failed env ext user_id edit_id image_path prompt
                w e Hf)
      as (w' & pre & -> & _ & _ & _ & Hpre & _ & ts & Hlog).
    cbn [snd]. rewrite (effects_since_app _ _ _ Hlog).
    rewrite !fmap_app, !List.filter_app.
    rewrite (outside_entries _ _ is_edit_status) by (done || by intros []).
    rewrite (outside_entries _ _ is_usage_alert) by (done || by intros []).
    rewrite (outside_entries _ _ is_audited) by (done || by intros []).
    rewrite (outside_entries _ _ is_sent) by (done || by intros []).
    rewrite !stored_entry_filter by (by intros []).
    split; [eexists _, _, _; split; [reflexivity | right; by eauto] |].
    split; [cbn; lia |]. split; [by eexists _, _, _ |].
    by repeat constructor.
  - destruct (process_edit_try_ok env ext user_id edit_id image_path prompt
                w Hf)
      as (image & url & content & _ & _ & _ & Hrun).
    cbn zeta in Hrun.
    unfold Edits.process_edit, try_except. rewrite Hrun. cbn [fst snd].
    erewrite effects_since_app by (cbn [log]; reflexivity).
    rewrite !fmap_app, !List.filter_app.
    rewrite !stored_entry_filter by (by intros []).
    split; [| split; [| split]].
    + eexists _, _, _. split; [| left; by eauto].
      by destruct (negb _ && _).
    + destruct (negb _ && _); cbn; lia.
    + eexists _, _, _. by destruct (negb _ && _).
    + destruct (negb _ && _); by repeat constructor.
Qed.



(** X25. Submitting an edit on an owned image and then running its task
    leaves the task list as it was before the submission, and [list_edits]
    then lists the new edit for its owner: completed with the generated
    result path when no outside call failed, failed without a result path
    otherwise. *)
Theorem submit_then_run_is_listed (env : Env) (ext : Edits.Externals)
    (user_id image_id prompt : pystr) (w : World) (img : Image) :
  get_image user_id image_id (db w) = Some img →
  let w1 := exec env (Submit user_id image_id prompt) w in
  let w2 := exec env (RunTask (length (tasks w)) ext) w1 in
  tasks w2 = tasks w ∧
  ∃ l r,
    Edits.list_edits image_id user_id w2 = (Ok l, w2) ∧ r ∈ l ∧
    Edits.id r = uuid4 env (draws w) ∧ Edits.r_prompt r = prompt ∧
    match external_failure env ext (img_path img) prompt w1 with
    | None =>
        Edits.status r = completed ∧
        Edits.result_path r = Some (rel_path_at env w1)
    | Some _ => Edits.status r = failed ∧ Edits.result_path r = None
    end.
Proof.
  intros Hg. cbn zeta. cbn [exec].
  rewrite (create_edit_found env _ _ _ _ img Hg).
  cbn [snd tasks Edits.prompt].
  set (u := uuid4 env (draws w)).
  set (t := {| task_user_id := user_id; task_edit_id := u;
               task_image_path := img_path img; task_prompt := prompt |}).
  set (rec := {| e_id := u; e_user_id := user_id; e_image_id := image_id;
                 e_prompt := prompt; e_status := queued;
                 e_result_path := None;
                 e_created_at := utcnow env (ticks w);
                 e_updated_at := utcnow env (S (ticks w)) |}).
  set (w1 := {| db := set_edits (insert u rec) (db w);
                tasks := tasks w ++ [t]; draws := S (draws w);
                ticks := S (S (S (ticks w))); log := _ |}).
  rewrite (list_lookup_middle (tasks w) [] t (length (tasks w)) eq_refl).
  cbn [task_user_id task_edit_id task_image_path task_prompt t].
  destruct (process_edit_db env ext user_id u (img_path img) prompt
              (set_tasks (delete (length (tasks w))) w1))
    as (w2 & -> & Htasks & _ & Hdb). cbn [snd].
  cbn [tasks set_tasks w1] in Htasks.
  rewrite (delete_middle (tasks w) [] t), app_nil_r in Htasks.
  split; [done |].
  assert (edits (db w1) !! u = Some rec) as Hrec.
  { cbn [db w1 edits set_edits]. by rewrite lookup_insert_eq. }
  change (external_failure env ext (img_path img) prompt
            (set_tasks (delete (length (tasks w))) w1))
    with (external_failure env ext (img_path img) prompt w1) in Hdb.
  change (db (set_tasks (delete (length (tasks w))) w1)) with (db w1) in Hdb.
  change (ticks (set_tasks (delete (length (tasks w))) w1)) with (ticks w1)
    in Hdb.
  change (rel_path_at env (set_tasks (delete (length (tasks w))) w1))
    with (rel_path_at env w1) in Hdb.
  assert (∃ fields,
    images (db w2) = images (db w) ∧
    edits (db w2) !! u = Some (apply_fields fields (utcnow env (ticks w1)) rec)
    ∧ match external_failure env ext (img_path img) prompt w1 with
      | None => fields = {| f_status := Some completed;
                            f_result_path := Some (rel_path_at env w1) |}
      | Some _ => fields = {| f_status := Some failed;
                              f_result_path := None |}
      end) as (fields & Him & Hed & Hfields).
  { destruct Hdb as [(Hf & _ & ->) | ([e Hf] & ->)]; rewrite Hf;
      eexists; (split; [| split; [| reflexivity]]).
    - destruct (increment_usage_frame
                  (update_edit (utcnow env (ticks w1)) u
                     {| f_status := Some completed;
                        f_result_path := Some (rel_path_at env w1) |}
                     (db w1)).2 user_id (lit "edits_completed") 1)
        as (-> & _ & _).
      by destruct (update_edit_frame (utcnow env (ticks w1)) u
                     {| f_status := Some completed;
                        f_result_path := Some (rel_path_at env w1) |}
                     (db w1)) as (-> & _ & _).
    - destruct (increment_usage_frame
                  (update_edit (utcnow env (ticks w1)) u
                     {| f_status := Some completed;
                        f_result_path := Some (rel_path_at env w1) |}
                     (db w1)).2 user_id (lit "edits_completed") 1)
        as (_ & -> & _).
      rewrite (update_edit_lookup _ _ _ _ _ Hrec). by rewrite lookup_insert_eq.
    - by destruct (update_edit_frame (utcnow env (ticks w1)) u
                     {| f_status := Some failed; f_result_path := None |}
                     (db w1)) as (-> & _ & _).
    - rewrite (update_edit_lookup _ _ _ _ _ Hrec). by rewrite lookup_insert_eq. }
  assert (get_image user_id image_id (db w2) = Some img) as Hg2.
  { unfold get_image in *. by rewrite Him. }
  rewrite (list_edits_found _ _ _ img Hg2).
  eexists _, (Edits.EditResponse_of _). split; [reflexivity |]. split.
  { apply list_elem_of_fmap. eexists. split; [reflexivity |].
    apply elem_of_list_edits_for_image. split; [by eexists | done]. }
  do 2 (split; [done |]).
  destruct (external_failure env ext (img_path img) prompt w1);
    by rewrite Hfields.
Qed.

(** X25 on the example. *)
Lemma submit_then_run_is_listed_witness :
  let w2 := run Example.env [Example.submit; RunTask 0 Example.all_ok]
              Example.uploaded in
  ∃ l r,
    Edits.list_edits Example.house Example.alice w2 = (Ok l, w2) ∧ r ∈ l ∧
    Edits.id r = Example.uuid 1 ∧ Edits.status r = completed.
Proof.
  intros w2.
  destruct (submit_then_run_is_listed Example.env Example.all_ok
              Example.alice Example.house (lit "brighter sky")
              Example.uploaded
              {| img_id := Example.house; img_user_id := Example.alice;
                 img_filename := lit "house.jpg";
                 img_path := lit "storage/uploads/house.jpg";
                 img_mime := lit "image/jpeg";
                 img_created_at := utcnow Example.env 0;
                 img_status := lit "uploaded" |})
    as (_ & l & r & Hl & Hr & Hid & _ & Hst); [vm_compute; reflexivity |].
  unfold external_failure, Example.all_ok in Hst.
  cbn [Edits.open_rb Edits.post_enhance Edits.get_content Edits.write_file]
    in Hst.
  destruct Hst as [Hst _].
  exists l, r. by repeat split.
Defined.
